(** * python_ocr: the licence-plate scanning screen and its tensor utilities

    A shallow embedding of the two JavaScript sources that carry logic:

    - [TfliteUtils] (the image-to-tensor converter [base64ToTensor] and
      the nearest-neighbour resizer [resizeNearestNeighbor]);
    - [ScanLicensePlateScreen] (the output decoder [processOutput] and
      the orchestration function [processImage]).

    JavaScript numbers are IEEE-754 binary64 values.  They are modelled
    by the Standard Library's [spec_float] with precision 53 and maximal
    exponent 1024, so comparisons, [Math.min], [Math.floor], [*] and [/]
    are the IEEE operations, rounding included.  A read outside an array
    yields [undefined], modelled as [None].

    Array lengths, indices and image sizes are natural numbers: an index
    into a typed array is below 2^53, where the arithmetic of Numbers on
    integers is exact.  The source coordinates of the resizer are computed
    on Numbers, with the IEEE product and quotient: their products pass
    2^53 for buffers that can exist.

    Strings are sequences of 8-bit code units.  The camera, the file
    system, the model runtime, the JPEG decoder and the base64 decoder are
    libraries; the two decoders are parameters of the converter, and
    [processImage] starts from what awaiting the inference gave.  Console
    output is left out. *)

From Stdlib Require Import ZArith Lia Bool String Ascii DecimalString.
From Stdlib Require Import Floats.SpecFloat.
From stdpp Require Import base list.

Local Open Scope Z_scope.

(* ================================================================== *)
(** ** JavaScript numbers and strings                                  *)
(* ================================================================== *)

Module Js.

(** A Number: binary64. *)
Definition number : Type := spec_float.

(** A value read from a numeric array: a Number, or [undefined]. *)
Definition value : Type := option number.

(** ToNumber(undefined) is NaN. *)
Definition ToNumber (v : value) : number :=
  match v with
  | Some x => x
  | None => S754_nan
  end.

(** The Number of an integer literal or of an integral loop counter
    (exact below 2^53). *)
Definition Num_of_Z (z : Z) : number := binary_normalize 53 1024 z 0 false.
Definition Num_of_nat (n : nat) : number := Num_of_Z (Z.of_nat n).

Definition zero : number := S754_zero false.
Definition one : number := Eval vm_compute in Num_of_Z 1.
Definition ten : number := Eval vm_compute in Num_of_Z 10.
Definition hundred : number := Eval vm_compute in Num_of_Z 100.
Definition ten_thousand : number := Eval vm_compute in Num_of_Z 10000.
Definition n255 : number := Eval vm_compute in Num_of_Z 255.
(** The literal [0.5] is 1 * 2^-1. *)
Definition half : number := Eval vm_compute in binary_normalize 53 1024 1 (-1) false.

(** [a < b] and [a > b] on Numbers: false as soon as one side is NaN. *)
Definition lt (a b : number) : bool := SFltb a b.
Definition gt (a b : number) : bool := SFltb b a.
Definition le (a b : number) : bool := SFleb a b.

(** [Math.min(a, b)]: NaN if either is NaN, and -0 is below +0. *)
Definition Math_min (a b : number) : number :=
  match SFcompare a b with
  | None => S754_nan
  | Some Lt => a
  | Some Gt => b
  | Some Eq => match a with S754_zero true => a | _ => b end
  end.

(** [a * b] and [a / b]. *)
Definition mul (a b : number) : number := SFmul 53 1024 a b.
Definition div (a b : number) : number := SFdiv 53 1024 a b.

(** [Math.floor(x)]: the largest integral Number not above [x]; NaN,
    the infinities and the zeros are returned as they are. *)
Definition Math_floor (x : number) : number :=
  match x with
  | S754_finite s m e =>
      if 0 <=? e then x
      else
        let q := Z.pos m / 2 ^ (- e) in
        if s then
          (* floor (-(m / 2^k)) = - ceil (m / 2^k) *)
          Num_of_Z (- (if Z.pos m mod 2 ^ (- e) =? 0 then q else q + 1))
        else if q =? 0 then S754_zero false
        else Num_of_Z q
  | _ => x
  end.

(** The mathematical integer denoted by an integral Number. *)
Definition integer_of (x : number) : option Z :=
  match x with
  | S754_zero _ => Some 0
  | S754_finite s m e =>
      if 0 <=? e then Some (cond_Zopp s (Z.pos m * 2 ^ e))
      else if Z.pos m mod 2 ^ (- e) =? 0
           then Some (cond_Zopp s (Z.pos m / 2 ^ (- e)))
           else None
  | _ => None
  end.

(** Number::toString as a template literal applies it.  The integral
    fragment is embedded: an integral Number of magnitude below 1e21
    prints as its decimal digits.  Fractions and larger magnitudes go
    through the engine's shortest-digits algorithm, which is not part of
    this repository; the decoder only ever prints the result of
    [Math.floor], and the model prints that fragment by its integer
    part in decimal as well. *)
Definition Number_toString (x : number) : string :=
  match x with
  | S754_nan => "NaN"
  | S754_infinity false => "Infinity"
  | S754_infinity true => "-Infinity"
  | S754_zero _ => "0"
  | S754_finite s m e =>
      let z := if 0 <=? e then Z.pos m * 2 ^ e else Z.pos m / 2 ^ (- e) in
      NilZero.string_of_int (Z.to_int (cond_Zopp s z))
  end.

(** Storing a Number in a [Float32Array] rounds it to binary32; reading
    it back widens it (exactly) to binary64.  Together: [Math.fround]. *)
Definition to_binary32 (x : number) : spec_float :=
  match x with
  | S754_finite s m e => binary_round 24 128 s m e
  | _ => x
  end.

Definition of_binary32 (x : spec_float) : number :=
  match x with
  | S754_finite s m e => binary_round 53 1024 s m e
  | _ => x
  end.

Definition Math_fround (x : number) : number := of_binary32 (to_binary32 x).

(** [\w] and [\s] of a regular expression, on 8-bit code units. *)
Definition is_word_char (c : ascii) : bool :=
  let n := N_of_ascii c in
  ((48 <=? n) && (n <=? 57) || (65 <=? n) && (n <=? 90)
   || (n =? 95) || (97 <=? n) && (n <=? 122))%N.

Definition is_space_char (c : ascii) : bool :=
  let n := N_of_ascii c in
  ((9 <=? n) && (n <=? 13) || (n =? 32) || (n =? 160))%N.

(** [s] without the literal prefix [p], when it starts with it. *)
Fixpoint strip_literal (p s : string) : option string :=
  match p with
  | EmptyString => Some s
  | String a p' =>
      match s with
      | String b s' => if Ascii.eqb a b then strip_literal p' s' else None
      | EmptyString => None
      end
  end.

(** The rest of [s] after its longest run of word characters: what a
    greedy [\w*] leaves. *)
Fixpoint skip_word (s : string) : string :=
  match s with
  | String c s' => if is_word_char c then skip_word s' else s
  | EmptyString => s
  end.

(** [s.replace(/\s/g, '')]. *)
Fixpoint remove_spaces (s : string) : string :=
  match s with
  | String c s' =>
      if is_space_char c then remove_spaces s' else String c (remove_spaces s')
  | EmptyString => EmptyString
  end.

(** [s.substring(0, n)]. *)
Fixpoint substring0 (n : nat) (s : string) : string :=
  match n, s with
  | S n', String c s' => String c (substring0 n' s')
  | _, _ => EmptyString
  end.

(** [Math.random()]: the source of random Numbers is a sequence of
    draws and a cursor into it. *)
Record rng : Type := mkRng { draws : nat -> number; cursor : nat }.

Definition Math_random (g : rng) : number * rng :=
  (draws g (cursor g), {| draws := draws g; cursor := S (cursor g) |}).

End Js.

(* ================================================================== *)
(** ** TfliteUtils: image to tensor                                    *)
(* ================================================================== *)

Module TfliteUtils.
Import Js.

(** What [jpeg.decode] returns: width, height and RGBA samples, one byte
    per channel, row-major, in a [Uint8Array]. *)
Record image : Type := mkImage {
  width : nat;
  height : nat;
  data : list Byte.byte
}.

(** The libraries the converter calls.  [Buffer.from(s, 'base64')] always
    returns bytes; [jpeg.decode] throws on input that is not a JPEG
    ([None]). *)
Class Libraries : Type := {
  Buffer_from_base64 : string -> list Byte.byte;
  jpeg_decode : list Byte.byte -> option image
}.

(** A decoded image is well formed when its buffer holds four samples
    for each pixel. *)
Definition well_formed (img : image) : Prop :=
  length (data img) = (width img * height img * 4)%nat.

(** [base64.replace(/^data:image\/\w+;base64,/, '')].  The run [\w+] is
    greedy and the character after it must be [;], which is not a word
    character, so giving back characters never produces a match: the
    longest run decides. *)
Definition strip_data_uri (base64 : string) : string :=
  match strip_literal "data:image/" base64 with
  | Some (String c rest) =>
      if is_word_char c then
        match strip_literal ";base64," (skip_word rest) with
        | Some b64 => b64
        | None => base64
        end
      else base64
  | _ => base64
  end.

(** A store into a [Uint8Array] of a value read from a [Uint8Array]:
    [undefined] becomes 0. *)
Definition ToUint8 (v : option Byte.byte) : Byte.byte :=
  match v with
  | Some b => b
  | None => Byte.x00
  end.

(** [Math.floor(coord * oldDim / newDim)]: the loop counter and the two
    sizes are Numbers, the product and the quotient are the IEEE
    operations, each rounded to binary64. *)
Definition source_coordinate (coord oldDim newDim : Z) : number :=
  Math_floor (div (mul (Num_of_Z coord) (Num_of_Z oldDim)) (Num_of_Z newDim)).

(** The element that a Number designates in a typed array: the Number has
    to be a non-negative integer.  Any other Number (a fraction, a negative
    number, NaN, an infinity) designates no element, and a read there
    yields [undefined]. *)
Definition array_index (x : number) : option nat :=
  match integer_of x with
  | Some z => if 0 <=? z then Some (Z.to_nat z) else None
  | None => None
  end.

(** [srcIdx = (srcY * oldW + srcX) * 4].  On integers this sum of products
    is exact as long as it is below 2^53, which every index into a typed
    array is; from 2^53 on it designates no element of the source buffer,
    rounded or not. *)
Definition source_index (oldW : nat) (srcY srcX : number) : option nat :=
  match array_index srcY, array_index srcX with
  | Some sy, Some sx => Some ((sy * oldW + sx) * 4)%nat
  | _, _ => None
  end.

(** [oldData[srcIdx + c]]. *)
Definition read_sample (oldData : list Byte.byte) (srcIdx : option nat) (c : nat)
    : option Byte.byte :=
  match srcIdx with
  | Some i => oldData !! (i + c)%nat
  | None => None
  end.

(** The body of the inner loop of [resizeNearestNeighbor]: the four
    channel copies for destination pixel (x, y). *)
Definition copy_pixel (oldData : list Byte.byte) (oldW newW : nat) (srcY : number)
    (y : nat) (newData : list Byte.byte) (x : nat) : list Byte.byte :=
  let srcX := source_coordinate (Z.of_nat x) (Z.of_nat oldW) (Z.of_nat newW) in
  let srcIdx := source_index oldW srcY srcX in
  let dstIdx := ((y * newW + x) * 4)%nat in
  let newData := <[(dstIdx + 0)%nat := ToUint8 (read_sample oldData srcIdx 0)]> newData in
  let newData := <[(dstIdx + 1)%nat := ToUint8 (read_sample oldData srcIdx 1)]> newData in
  let newData := <[(dstIdx + 2)%nat := ToUint8 (read_sample oldData srcIdx 2)]> newData in
  let newData := <[(dstIdx + 3)%nat := ToUint8 (read_sample oldData srcIdx 3)]> newData in
  newData.

(** The body of the outer loop: one destination row. *)
Definition copy_row (oldData : list Byte.byte) (oldW oldH newW newH : nat)
    (newData : list Byte.byte) (y : nat) : list Byte.byte :=
  let srcY := source_coordinate (Z.of_nat y) (Z.of_nat oldH) (Z.of_nat newH) in
  foldl (copy_pixel oldData oldW newW srcY y) newData (seq 0 newW).

(** [resizeNearestNeighbor(img, newW, newH)].  The two loops run over the
    destination rows and columns; the source row and column of each
    destination pixel are computed on Numbers. *)
Definition resizeNearestNeighbor (img : image) (newW newH : nat) : image :=
  let oldW := width img in
  let oldH := height img in
  let oldData := data img in
  let newData := replicate (newW * newH * 4) Byte.x00 in
  let newData := foldl (copy_row oldData oldW oldH newW newH) newData (seq 0 newH) in
  {| width := newW; height := newH; data := newData |}.

(** The Number of a byte read from a [Uint8Array]. *)
Definition Num_of_byte (b : Byte.byte) : number := Num_of_Z (Z.of_N (Byte.to_N b)).

(** [rgba[k] / 255.0] as it lands in the [Float32Array]. *)
Definition normalize (v : option Byte.byte) : number :=
  Math_fround (div (ToNumber (Num_of_byte <$> v)) n255).

(** The body of the loop of [base64ToTensor]. *)
Definition fill_pixel (rgba : list Byte.byte) (tensor : list number) (i : nat)
    : list number :=
  let tensor := <[(i * 3 + 0)%nat := normalize (rgba !! (i * 4 + 0)%nat)]> tensor in
  let tensor := <[(i * 3 + 1)%nat := normalize (rgba !! (i * 4 + 1)%nat)]> tensor in
  let tensor := <[(i * 3 + 2)%nat := normalize (rgba !! (i * 4 + 2)%nat)]> tensor in
  tensor.

(** The part of [base64ToTensor] after decoding. *)
Definition tensor_of_image (raw : image) (targetW targetH : nat) : list number :=
  let resized := resizeNearestNeighbor raw targetW targetH in
  let rgba := data resized in
  let tensor := replicate (targetW * targetH * 3) zero in
  foldl (fill_pixel rgba) tensor (seq 0 (targetW * targetH)).

(** [base64ToTensor(base64, targetW, targetH)]; [None] when the decoder
    throws. *)
Definition base64ToTensor `{Libraries} (base64 : string) (targetW targetH : nat)
    : option (list number) :=
  let b64 := strip_data_uri base64 in
  let imageBuffer := Buffer_from_base64 b64 in
  match jpeg_decode imageBuffer with
  | Some raw => Some (tensor_of_image raw targetW targetH)
  | None => None
  end.

End TfliteUtils.

(* ================================================================== *)
(** ** ScanLicensePlateScreen: output decoding and orchestration       *)
(* ================================================================== *)

Module ScanLicensePlateScreen.
Import Js.

Definition CONFIDENCE_THRESHOLD : number := half.

(** A detection record as [processOutput] pushes it. *)
Record box : Type := mkBox { x1 : value; y1 : value; x2 : value; y2 : value }.

Record plate : Type := mkPlate {
  confidence : value;
  bbox : box;
  text : string
}.

(** The template literal
    [`KA${Math.floor(Math.random() * 100)}AB${Math.floor(Math.random() * 10000)}`],
    on the two draws it makes, in order. *)
Definition plate_text (r1 r2 : number) : string :=
  ("KA" ++ Number_toString (Math_floor (mul r1 hundred))
   ++ "AB" ++ Number_toString (Math_floor (mul r2 ten_thousand)))%string.

(** The body of the loop of [processOutput], for counter [i]. *)
Definition loop_body (output : list number) (i : nat) (st : list plate * rng)
    : list plate * rng :=
  let '(plates, g) := st in
  let baseIndex := (1 + i * 6)%nat in
  let confidence := output !! (baseIndex + 4)%nat in
  if gt (ToNumber confidence) CONFIDENCE_THRESHOLD then
    let x1 := output !! baseIndex in
    let y1 := output !! (baseIndex + 1)%nat in
    let x2 := output !! (baseIndex + 2)%nat in
    let y2 := output !! (baseIndex + 3)%nat in
    let '(r1, g) := Math_random g in
    let '(r2, g) := Math_random g in
    (plates ++ [ {| confidence := confidence;
                    bbox := {| x1 := x1; y1 := y1; x2 := x2; y2 := y2 |};
                    text := plate_text r1 r2 |} ], g)
  else (plates, g).

(** [for (let i = ...; i < numDetections; i++) body].  The bound is a
    Number, so the loop is run on fuel; [None] is "fuel exhausted". *)
Fixpoint for_loop (fuel : nat) (output : list number) (numDetections : number)
    (i : nat) (st : list plate * rng) : option (list plate * rng) :=
  match fuel with
  | O => None
  | S fuel' =>
      if lt (Num_of_nat i) numDetections
      then for_loop fuel' output numDetections (S i) (loop_body output i st)
      else Some st
  end.

Definition numDetections (output : list number) : number :=
  Math_min (ToNumber (output !! 0%nat)) ten.

(** [processOutput(output)], with the random source threaded through. *)
Definition processOutput_fuel (fuel : nat) (g : rng) (output : list number)
    : option (list plate * rng) :=
  for_loop fuel output (numDetections output) 0 ([], g).

(** Eleven tests of the loop condition always suffice
    (see [processOutput_total]). *)
Definition processOutput (g : rng) (output : list number)
    : option (list plate * rng) :=
  processOutput_fuel 11 g output.

(** What [processImage] does to the screen. *)
Inductive event : Type :=
| SetLicensePlate (plateText : string)
| SetStateCode (stateCode : string)
| Navigate (screen licensePlate stateCode : string)
| Alert (title message : string)
| SetIsProcessing (b : bool).

(** A thrown [Error], by its message. *)
Inductive exn : Type := Error (message : string).

Definition message_of (e : exn) : string := let 'Error m := e in m.

(** The callback of [plates.reduce]. *)
Definition better (prev current : plate) : plate :=
  if gt (ToNumber (confidence prev)) (ToNumber (confidence current))
  then prev else current.

(** [plates.reduce(callback)] without an initial value, on a non-empty
    array: the first element starts as the accumulator. *)
Definition bestPlate (first : plate) (rest : list plate) : plate :=
  foldl better first rest.

(** The [try] block of [processImage].  [inference] is what awaiting
    [runInferenceOnImage] gave: the model's outputs, or a thrown error.
    [type_error] is the engine's message for reading index 0 of
    [undefined] (when the model returned no output at all). *)
Definition processImage_try (type_error : string) (g : rng)
    (inference : exn + list (list number))
    : option (list event * option exn * rng) :=
  match inference with
  | inl e => Some ([], Some e, g)
  | inr outputs =>
      match outputs !! 0%nat with
      | None => Some ([], Some (Error type_error), g)
      | Some output =>
          match processOutput g output with
          | None => None
          | Some ([], g') =>
              Some ([], Some (Error "No license plates detected"), g')
          | Some (first :: rest, g') =>
              let best := bestPlate first rest in
              let plateText := remove_spaces (text best) in
              let detectedStateCode := substring0 2 plateText in
              Some ([SetLicensePlate plateText;
                     SetStateCode detectedStateCode;
                     Navigate "AddCar" plateText detectedStateCode],
                    None, g')
          end
      end
  end.

(** The [catch] block: one alert, with the error's message or, when that
    is empty, the generic text. *)
Definition processImage_catch (e : exn) : list event :=
  [Alert "Processing Failed"
     (if String.eqb (message_of e) ""
      then "Could not detect license plate. Try again or enter manually."
      else message_of e)].

(** [processImage]: try, catch, finally. *)
Definition processImage (type_error : string) (g : rng)
    (inference : exn + list (list number)) : option (list event * rng) :=
  match processImage_try type_error g inference with
  | None => None
  | Some (evs, thrown, g') =>
      let caught := match thrown with
                    | Some e => processImage_catch e
                    | None => []
                    end in
      Some (evs ++ caught ++ [SetIsProcessing false], g')
  end.

End ScanLicensePlateScreen.

Import Js TfliteUtils ScanLicensePlateScreen.

(* ================================================================== *)
(** ** TfliteUtils: the model cache and the inference call             *)
(* ================================================================== *)

Module Inference.

(** What the inference call needs besides the converter's libraries:
    [RNFS.readFile(path, 'base64')], the error [jpeg.decode] throws on a
    buffer it rejects, and [m.run(inputs)] of the loaded model. *)
Class Runtime (Model : Type) : Type := {
  RNFS_readFile : string -> exn + string;
  jpeg_error : list Byte.byte -> exn;
  run : Model -> list (list number) -> exn + list (list number)
}.

(** [loadModelIfNeeded()], on the module-level variable [model] and on
    what [loadTensorflowModel] would answer if it were awaited now.  It
    returns the model or the thrown error, and the new value of [model].
    Calls follow one another: the screen starts none while one is
    running. *)
Definition loadModelIfNeeded {Model : Type} (model : option Model)
    (load : exn + Model) : (exn + Model) * option Model :=
  match model with
  | Some m => (inr m, model)
  | None =>
      match load with
      | inr m => (inr m, Some m)
      | inl e => (inl e, None)
      end
  end.

(** [runInferenceOnImage(path)]: the model's outputs or the first error
    thrown, and the new value of [model]. *)
Definition runInferenceOnImage {Model : Type} `{Libraries} `{Runtime Model}
    (model : option Model) (load : exn + Model) (path : string)
    : (exn + list (list number)) * option Model :=
  match loadModelIfNeeded model load with
  | (inl e, model') => (inl e, model')
  | (inr m, model') =>
      match RNFS_readFile path with
      | inl e => (inl e, model')
      | inr b64 =>
          match base64ToTensor b64 640 640 with
          | None =>
              (inl (jpeg_error (Buffer_from_base64 (strip_data_uri b64))), model')
          | Some tensor => (run m [tensor], model')
          end
      end
  end.

End Inference.

(* ================================================================== *)
(** ** ScanLicensePlateScreen: the two actions of the screen           *)
(* ================================================================== *)

Module ScreenActions.

(** The two busy flags of the screen, as an action reads them. *)
Record flags : Type := mkFlags { isProcessing : bool; isCapturing : bool }.

(** What an action does to the screen: the events of [processImage] and
    two more setters. *)
Inductive action : Type :=
| SetIsCapturing (b : bool)
| SetCapturedImage (uri : string)
| Screen (e : event).

(** [captureImage()].  [camera] is [camera.current]: [None] when it is
    null, else what awaiting [takePhoto] gives (the path of the photo or a
    thrown error).  [infer] is what awaiting [runInferenceOnImage] gives
    for a path.  [processImage] catches what it throws, so the [catch]
    block here only sees a failure of [takePhoto]. *)
Definition captureImage (st : flags) (camera : option (exn + string))
    (type_error : string) (g : rng)
    (infer : string -> exn + list (list number))
    : option (list action * rng) :=
  if isCapturing st || isProcessing st then Some ([], g)
  else
    match camera with
    | None => Some ([], g)
    | Some (inl _) =>
        Some ([SetIsCapturing true;
               Screen (Alert "Capture Failed" "Please try again.");
               SetIsCapturing false], g)
    | Some (inr path) =>
        match processImage type_error g (infer path) with
        | None => None
        | Some (evs, g') =>
            Some ([SetIsCapturing true; SetCapturedImage path;
                   Screen (SetIsProcessing true)]
                  ++ (Screen <$> evs) ++ [SetIsCapturing false], g')
        end
    end.

(** An asset of the image picker: its [uri], when it has one. *)
Record asset : Type := mkAsset { uri : option string }.

(** [result.assets?.[0]?.uri] when it is truthy: a non-empty string. *)
Definition first_uri (assets : option (list asset)) : option string :=
  match assets with
  | Some (a :: _) =>
      match uri a with
      | Some u => if String.eqb u "" then None else Some u
      | None => None
      end
  | _ => None
  end.

(** [selectImage()].  [picked] is what awaiting [launchImageLibrary]
    gives: the [assets] field of its result, or a thrown error. *)
Definition selectImage (st : flags) (picked : exn + option (list asset))
    (type_error : string) (g : rng)
    (infer : string -> exn + list (list number))
    : option (list action * rng) :=
  if isProcessing st || isCapturing st then Some ([], g)
  else
    match picked with
    | inl _ => Some ([Screen (Alert "Gallery Error" "Failed to select image")], g)
    | inr assets =>
        match first_uri assets with
        | None => Some ([], g)
        | Some u =>
            match processImage type_error g (infer u) with
            | None => None
            | Some (evs, g') =>
                Some ([SetCapturedImage u; Screen (SetIsProcessing true)]
                      ++ (Screen <$> evs), g')
            end
        end
    end.

End ScreenActions.

Import Inference ScreenActions.


(* ================================================================== *)
(** ** Descriptions of the decoder's result                            *)
(* ================================================================== *)

(** The definitions below are not code of the repository: they describe
    what [processOutput] computes, and the theorems relate them to it. *)

(** How often the body of a loop [for (i = 0; i < bound; i++)] runs, when
    at most [fuel] tests are made starting from counter [i]. *)
Fixpoint first_failing (bound : number) (fuel i : nat) : nat :=
  match fuel with
  | O => i
  | S fuel' =>
      if lt (Num_of_nat i) bound then first_failing bound fuel' (S i) else i
  end.

(** The number of detections the decoder looks at. *)
Definition iterations (output : list number) : nat :=
  first_failing (numDetections output) 10 0.

(** The confidence of detection [i], as the decoder reads it. *)
Definition confidence_at (output : list number) (i : nat) : value :=
  output !! (1 + i * 6 + 4)%nat.

(** Whether detection [i] passes the threshold. *)
Definition above_threshold (output : list number) (i : nat) : bool :=
  gt (ToNumber (confidence_at output i)) CONFIDENCE_THRESHOLD.

(** The detections the decoder keeps, in order. *)
Definition kept (output : list number) : list nat :=
  filter (fun i => above_threshold output i = true) (seq 0 (iterations output)).

(** The record for detection [i], given the two draws used for its text. *)
Definition record_at (output : list number) (i : nat) (r1 r2 : number) : plate :=
  {| confidence := confidence_at output i;
     bbox := {| x1 := output !! (1 + i * 6)%nat;
                y1 := output !! (1 + i * 6 + 1)%nat;
                x2 := output !! (1 + i * 6 + 2)%nat;
                y2 := output !! (1 + i * 6 + 3)%nat |};
     text := plate_text r1 r2 |}.

(** The records for the detections [idxs], drawing from position [c] on. *)
Fixpoint records (output : list number) (d : nat -> number) (c : nat)
    (idxs : list nat) : list plate :=
  match idxs with
  | [] => []
  | i :: idxs' =>
      record_at output i (d c) (d (S c)) :: records output d (S (S c)) idxs'
  end.

(** The texts of [k] records, which only the draws decide. *)
Fixpoint random_texts (d : nat -> number) (c : nat) (k : nat) : list string :=
  match k with
  | O => []
  | S k' => plate_text (d c) (d (S c)) :: random_texts d (S (S c)) k'
  end.

(** The random source after [k] more draws. *)
Definition advance (g : rng) (k : nat) : rng :=
  {| draws := draws g; cursor := (cursor g + k)%nat |}.

(** A draw of [Math.random()]: a binary64 value at least 0 and below 1. *)
Definition unit_draw (r : number) : Prop :=
  valid_binary 53 1024 r = true /\ le zero r = true /\ lt r one = true.

(** All characters of a string satisfy a test. *)
Fixpoint all_chars (P : ascii -> bool) (s : string) : bool :=
  match s with
  | EmptyString => true
  | String c s' => P c && all_chars P s'
  end.

(** The base64 alphabet: letters, digits, [+], [/] and the padding [=]. *)
Definition is_base64_char (c : ascii) : bool :=
  let n := N_of_ascii c in
  ((48 <=? n) && (n <=? 57) || (65 <=? n) && (n <=? 90)
   || (97 <=? n) && (n <=? 122) || (n =? 43) || (n =? 47) || (n =? 61))%N.

(** A data-URI header [data:image/<word>;base64,] with a non-empty word. *)
Definition data_uri_header (word : string) : string :=
  ("data:image/" ++ word ++ ";base64,")%string.

(** The sample that nearest-neighbour resizing puts at index [k] of the
    new buffer: channel [k mod 4] of the source pixel chosen for
    destination pixel [k / 4]. *)
Definition nearest_sample (img : image) (newW newH k : nat) : Byte.byte :=
  let x := ((k / 4) mod newW)%nat in
  let y := (k / 4 / newW)%nat in
  let srcX := source_coordinate (Z.of_nat x) (Z.of_nat (width img)) (Z.of_nat newW) in
  let srcY := source_coordinate (Z.of_nat y) (Z.of_nat (height img)) (Z.of_nat newH) in
  ToUint8 (read_sample (data img) (source_index (width img) srcY srcX) (k mod 4)).

(** A length that a typed array can have: below 2^53. *)
Definition array_length (n : nat) : Prop := Z.of_nat n < 2 ^ 53.

(** Sizes at which the source coordinates are computed without rounding
    of the product: a destination coordinate times the source size stays
    below 2^53. *)
Definition exact_sizes (oldDim newDim : nat) : Prop :=
  Z.of_nat oldDim * Z.of_nat newDim < 2 ^ 53.

(** The two stages of the rounding to binary64 that [*] and [/] end with
    ([binary_round_aux]): the mantissa after the first shift, rounded to
    nearest even, and the value that the second shift makes of it. *)
Definition first_stage (X E : Z) (l : location) : Z :=
  let mrs := fst (shr_fexp 53 1024 X E l) in
  round_nearest_even (shr_m mrs) (loc_of_shr_record mrs).

Definition second_stage (mr e1 : Z) : number :=
  let '(mrs'', e'') := shr_fexp 53 1024 mr e1 loc_Exact in
  match shr_m mrs'' with
  | Z0 => S754_zero false
  | Zpos m => if e'' <=? 1024 - 53 then S754_finite false m e'' else S754_infinity false
  | Zneg _ => S754_nan
  end.

(** The Number that [base64ToTensor] puts at index [k] of the tensor:
    channel [k mod 3] of pixel [k / 3], over 255. *)
Definition tensor_sample (rgba : list Byte.byte) (k : nat) : number :=
  normalize (rgba !! (k / 3 * 4 + k mod 3)%nat).

(** A tensor element is a Number between 0 and 1, bounds included. *)
Definition in_unit_interval (v : number) : Prop :=
  le zero v = true /\ le v one = true.

(** The pattern of detections above the threshold: for each detection
    the decoder looks at, whether it passes. *)
Definition pattern (output : list number) : list bool :=
  above_threshold output <$> seq 0 (iterations output).

(** The decimal digits of an integer. *)
Definition decimal (z : Z) : string := NilZero.string_of_int (Z.to_int z).

(** A check that the Number of the integer [q] denotes [q] and prints as
    its decimal digits. *)
Definition prints_as_integer (q : Z) : bool :=
  match integer_of (Num_of_Z q) with
  | Some z => z =? q
  | None => false
  end && String.eqb (Number_toString (Num_of_Z q)) (decimal q).

(** The check, made for [count] consecutive integers from [q] on. *)
Fixpoint print_as_integers (count : nat) (q : Z) : bool :=
  match count with
  | O => true
  | S count' => prints_as_integer q && print_as_integers count' (q + 1)
  end.

(** The confidence of a candidate as [>] sees it. *)
Definition conf (p : plate) : number := ToNumber (confidence p).

(** A candidate whose confidence is a Number other than NaN; every record
    of [processOutput] is one, its confidence being above 0.5. *)
Definition comparable (p : plate) : Prop := conf p <> S754_nan.

(* ================================================================== *)
(** ** Descriptions of the cache, the screen and the buffers           *)
(* ================================================================== *)

(** A run of calls of [loadModelIfNeeded], one for each answer the loader
    would give: the results, in order, and the final value of [model]. *)
Fixpoint load_session {Model : Type} (model : option Model)
    (loads : list (exn + Model)) : list (exn + Model) * option Model :=
  match loads with
  | [] => ([], model)
  | load :: loads' =>
      let '(r, model') := loadModelIfNeeded model load in
      let '(rs, final) := load_session model' loads' in
      (r :: rs, final)
  end.

(** The flags after an action's setters have taken effect. *)
Definition apply_action (st : flags) (a : action) : flags :=
  match a with
  | SetIsCapturing b => {| isProcessing := isProcessing st; isCapturing := b |}
  | Screen (SetIsProcessing b) => {| isProcessing := b; isCapturing := isCapturing st |}
  | _ => st
  end.

Definition replay (st : flags) (acts : list action) : flags :=
  foldl apply_action st acts.

(** An alert or a navigation: what the user sees of an action. *)
Definition is_report (a : action) : bool :=
  match a with
  | Screen (Alert _ _) | Screen (Navigate _ _ _) => true
  | _ => false
  end.

(** The indices of the raw output that the decoder can read: the count,
    and the first five numbers of each of the first ten records. *)
Definition is_read_index (k : nat) : Prop :=
  k = 0%nat \/ exists i c : nat, (i < 10)%nat /\ (c < 5)%nat /\ k = (1 + i * 6 + c)%nat.

(** All 256 bytes, in order. *)
Definition all_bytes : list Byte.byte :=
  omap Byte.of_N (N.of_nat <$> seq 0 256).

(** Each byte with the tensor value it is normalised to. *)
Definition normalize_table : list (N * number) :=
  List.map (fun b => (Byte.to_N b, normalize (Some b))) all_bytes.

(** A check that two entries of the table are in order: when the first
    byte is smaller, its tensor value is strictly smaller. *)
Definition in_order (p q : N * number) : bool :=
  implb (fst p <? fst q)%N (lt (snd p) (snd q)).

(* ================================================================== *)
(** ** Concrete inputs                                                 *)
(* ================================================================== *)

Module Examples.

(** A random source whose draws alternate between 0.5 and 0.25. *)
Definition quarter : number := Eval vm_compute in binary_normalize 53 1024 1 (-2) false.

Definition g_alt : rng :=
  {| draws := fun k => if Nat.even k then half else quarter; cursor := 0 |}.

(** Two detections: the first with confidence 1, the second with
    confidence exactly 0.5. *)
Definition out_two : list number :=
  [Num_of_Z 2;
   zero; zero; one; one; one; zero;
   zero; zero; one; one; half; zero].

(** Another array with the same pattern of detections above the
    threshold, and other numbers everywhere. *)
Definition out_two' : list number :=
  [Num_of_Z 2;
   one; one; ten; ten; ten; one;
   half; half; hundred; hundred; zero; one].

(** A count of zero, followed by a record that is never read. *)
Definition out_none : list number :=
  [zero; zero; zero; one; one; one; zero].

(** A negative count. *)
Definition out_negative : list number :=
  [Num_of_Z (-3); zero; zero; one; one; one; zero].

(** A claimed count of 12 in an array that holds a single record. *)
Definition out_short : list number :=
  [Num_of_Z 12; zero; zero; one; one; one; zero].

(** A 2x1 image, as a decoder would return it. *)
Definition img_2x1 : image :=
  {| width := 2; height := 1;
     data := [Byte.xff; Byte.x00; Byte.x80; Byte.xff;
              Byte.x01; Byte.x02; Byte.x03; Byte.x04] |}.

(** One row of 94906269 pixels, a buffer of 380 MB: black up to pixel
    94906264, white from pixel 94906265 on. *)
Definition img_wide : image :=
  {| width := Z.to_nat 94906269; height := 1;
     data := replicate (Z.to_nat 379625060) Byte.x00 ++ replicate 16 Byte.xff |}.

(** Stand-ins for the libraries: the buffer holds the code units of the
    text, and the decoder accepts any non-empty buffer and returns that
    image. *)
Definition libs : Libraries :=
  {| Buffer_from_base64 := fun s => byte_of_ascii <$> list_ascii_of_string s;
     jpeg_decode := fun buf => match buf with [] => None | _ => Some img_2x1 end |}.

(** Two candidates with the same confidence and different texts. *)
Definition plate_a : plate :=
  {| confidence := Some one;
     bbox := {| x1 := Some zero; y1 := Some zero; x2 := Some one; y2 := Some one |};
     text := "KA1AB1" |}.

Definition plate_b : plate :=
  {| confidence := Some one;
     bbox := {| x1 := Some zero; y1 := Some zero; x2 := Some one; y2 := Some one |};
     text := "KA2AB2" |}.

End Examples.

Module Samples.

(** One detection, with confidence exactly 0.5. *)
Definition out_low : list number :=
  [Num_of_Z 1; zero; zero; one; one; half; zero].

(** A 1x1 image: one opaque pixel. *)
Definition img_1x1 : image :=
  {| width := 1; height := 1; data := [Byte.x10; Byte.x20; Byte.x30; Byte.xff] |}.

(** The same pixel with another alpha. *)
Definition img_1x1' : image :=
  {| width := 1; height := 1; data := [Byte.x10; Byte.x20; Byte.x30; Byte.x00] |}.

(** An inference that answers every path with the array [out_two]. *)
Definition infer_two (path : string) : exn + list (list number) :=
  inr [Examples.out_two].

(** The idle screen. *)
Definition idle : flags := {| isProcessing := false; isCapturing := false |}.

(** A runtime whose file system holds one file and whose model answers
    with a fixed array. *)
Definition runtime : Runtime unit :=
  {| RNFS_readFile := fun path =>
       if String.eqb path "photo.jpg" then inr "/9j/4AAQ"%string
       else inl (Error "ENOENT");
     jpeg_error := fun _ => Error "SOI not found";
     run := fun _ _ => inr [Examples.out_two] |}.

End Samples.

(* ================================================================== *)
(** ** Facts about Numbers                                             *)
(* ================================================================== *)

Section NumberOrder.

(** Swapping the sides of a comparison flips its result. *)
Lemma SFcompare_antisym (x y : number) :
  SFcompare y x = CompOpp <$> SFcompare x y.
Proof.
  destruct x as [[]|[]| |[] m1 e1], y as [[]|[]| |[] m2 e2]; simpl; try reflexivity;
    change (Pos.compare_cont Eq m2 m1) with (Pos.compare m2 m1);
    change (Pos.compare_cont Eq m1 m2) with (Pos.compare m1 m2);
    rewrite (Z.compare_antisym e1 e2), (Pos.compare_antisym m1 m2);
    destruct (e1 ?= e2); simpl; try reflexivity;
    destruct (Pos.compare m1 m2); reflexivity.
Qed.

Lemma lt_gt_false (x y : number) : lt x y = true -> lt y x = false.
Proof.
  unfold lt, SFltb. rewrite (SFcompare_antisym x y).
  destruct (SFcompare x y) as [[]|]; simpl; congruence.
Qed.

Lemma lt_irrefl (x : number) : lt x x = false.
Proof.
  destruct (lt x x) eqn:E; [|reflexivity].
  pose proof (lt_gt_false _ _ E). congruence.
Qed.

(** [Math.min(x, 10)] is never above 10: the loop test fails at 10. *)
Lemma lt_ten_min (x : number) : lt ten (Math_min x ten) = false.
Proof.
  unfold Math_min. destruct (SFcompare x ten) as [[]|] eqn:E.
  - destruct x as [[]|[]| |[] m e]; try reflexivity; apply lt_irrefl.
  - unfold lt, SFltb. rewrite SFcompare_antisym, E. reflexivity.
  - apply lt_irrefl.
  - reflexivity.
Qed.

(** A first element at or below zero makes the loop bound fail at 0. *)
Lemma lt_zero_min (x : number) :
  le x zero = true -> lt zero (Math_min x ten) = false.
Proof.
  destruct x as [[]|[]| |[] m e]; try reflexivity; try discriminate.
Qed.

(** Two Numbers that are not NaN always compare. *)
Lemma SFcompare_defined (x y : number) :
  x <> S754_nan -> y <> S754_nan -> exists c, SFcompare x y = Some c.
Proof.
  intros Hx Hy.
  destruct x as [[]|[]| |[] m1 e1], y as [[]|[]| |[] m2 e2]; simpl; eauto; congruence.
Qed.

(** Of two Numbers that are not NaN, one is at or below the other. *)
Lemma le_total (x y : number) :
  x <> S754_nan -> y <> S754_nan -> lt y x = false -> le x y = true.
Proof.
  intros Hx Hy. destruct (SFcompare_defined y x Hy Hx) as [c Hc].
  unfold lt, le, SFltb, SFleb. rewrite (SFcompare_antisym y x), Hc.
  destruct c; simpl; congruence.
Qed.

Lemma lt_le (x y : number) : lt x y = true -> le x y = true.
Proof. unfold lt, le, SFltb, SFleb. destruct (SFcompare x y) as [[]|]; congruence. Qed.

Lemma lt_not_nan (x y : number) : lt x y = true -> x <> S754_nan /\ y <> S754_nan.
Proof.
  destruct x as [[]|[]| |[] m1 e1], y as [[]|[]| |[] m2 e2];
    try discriminate; intros _; split; discriminate.
Qed.

(** The comparison of two finite values of the same sign, by cases. *)
Ltac compare_cases :=
  repeat match goal with
  | H : context [Z.compare ?a ?b] |- _ => destruct (Z.compare_spec a b)
  | |- context [Z.compare ?a ?b] => destruct (Z.compare_spec a b)
  | H : context [Pos.compare_cont Eq ?a ?b] |- _ =>
      change (Pos.compare_cont Eq a b) with (Pos.compare a b) in *;
      destruct (Pos.compare_spec a b)
  | |- context [Pos.compare_cont Eq ?a ?b] =>
      change (Pos.compare_cont Eq a b) with (Pos.compare a b) in *;
      destruct (Pos.compare_spec a b)
  end.

Lemma le_trans (x y z : number) :
  le x y = true -> le y z = true -> le x z = true.
Proof.
  unfold le, SFleb.
  destruct x as [[]|[]| |[] m1 e1], y as [[]|[]| |[] m2 e2], z as [[]|[]| |[] m3 e3];
    cbn [SFcompare]; try reflexivity; try discriminate;
    intros H1 H2; compare_cases; subst; simpl in *;
    try reflexivity; try discriminate; lia.
Qed.

End NumberOrder.

(* ================================================================== *)
(** ** The decoding loop                                               *)
(* ================================================================== *)

Section DecodingLoop.

Variable output : list number.

Lemma first_failing_ge (bound : number) (fuel i : nat) :
  (i <= first_failing bound fuel i)%nat.
Proof.
  revert i. induction fuel as [|fuel IH]; intros i; simpl; [lia|].
  destruct (lt (Num_of_nat i) bound); [|lia].
  specialize (IH (S i)). lia.
Qed.

Lemma first_failing_le (bound : number) (fuel i : nat) :
  (first_failing bound fuel i <= i + fuel)%nat.
Proof.
  revert i. induction fuel as [|fuel IH]; intros i; simpl; [lia|].
  destruct (lt (Num_of_nat i) bound); [|lia].
  specialize (IH (S i)). lia.
Qed.

(** When the search for the first failing test ends on a failing test
    (and not for lack of fuel), the loop ends too, after running the body
    on the counters before it. *)
Lemma for_loop_first_failing (bound : number) (fuel i : nat) (st : list plate * rng) :
  lt (Num_of_nat (first_failing bound fuel i)) bound = false ->
  for_loop (S fuel) output bound i st =
    Some (foldl (fun st j => loop_body output j st) st
            (seq i (first_failing bound fuel i - i))).
Proof.
  revert i st. induction fuel as [|fuel IH]; intros i st Hstop.
  - simpl in *. rewrite Hstop. by rewrite Nat.sub_diag.
  - change (for_loop (S (S fuel)) output bound i st)
      with (if lt (Num_of_nat i) bound
            then for_loop (S fuel) output bound (S i) (loop_body output i st)
            else Some st).
    simpl first_failing in *.
    destruct (lt (Num_of_nat i) bound) eqn:Hi.
    + rewrite (IH (S i) (loop_body output i st) Hstop).
      pose proof (first_failing_ge bound fuel (S i)) as Hge.
      replace (first_failing bound fuel (S i) - i)%nat
        with (S (first_failing bound fuel (S i) - S i)) by lia.
      reflexivity.
    + by rewrite Nat.sub_diag.
Qed.

(** One run of the body. *)
Lemma loop_body_eq (i : nat) (plates : list plate) (g : rng) :
  loop_body output i (plates, g) =
    if above_threshold output i
    then (plates ++ [record_at output i (draws g (cursor g)) (draws g (S (cursor g)))],
          advance g 2)
    else (plates, g).
Proof.
  unfold loop_body, above_threshold, confidence_at, record_at, advance.
  destruct (gt _ _); [|reflexivity].
  simpl. do 3 f_equal. lia.
Qed.

(** The body of the loop, run over a list of counters: it appends the
    records of the counters above the threshold and draws twice for each. *)
Lemma foldl_loop_body (idxs : list nat) (plates : list plate) (g : rng) :
  foldl (fun st j => loop_body output j st) (plates, g) idxs =
    (plates ++ records output (draws g) (cursor g)
                 (filter (fun i => above_threshold output i = true) idxs),
     advance g (2 * length (filter (fun i => above_threshold output i = true) idxs))).
Proof.
  revert plates g. induction idxs as [|i idxs IH]; intros plates g.
  - cbn. rewrite app_nil_r. unfold advance. destruct g; simpl. do 2 f_equal. lia.
  - cbn [foldl]. rewrite loop_body_eq, filter_cons.
    destruct (decide (above_threshold output i = true)) as [Hi|Hi].
    + rewrite Hi, IH. cbn [records length advance draws cursor].
      rewrite <- app_assoc. cbn [app]. unfold advance; cbn [draws cursor].
      replace (cursor g + 2)%nat with (S (S (cursor g))) by lia.
      do 2 f_equal. lia.
    + apply not_true_is_false in Hi. rewrite Hi. apply IH.
Qed.

(** The search ends on a failing test or has used all its fuel. *)
Lemma first_failing_stops (bound : number) (fuel i : nat) :
  first_failing bound fuel i = (i + fuel)%nat \/
  lt (Num_of_nat (first_failing bound fuel i)) bound = false.
Proof.
  revert i. induction fuel as [|fuel IH]; intros i; simpl; [left; lia|].
  destruct (lt (Num_of_nat i) bound) eqn:Hi; [|by right].
  destruct (IH (S i)) as [->|H]; [left; lia|by right].
Qed.

(** Once it has ended on a failing test, more fuel changes nothing. *)
Lemma first_failing_more (bound : number) (fuel k i : nat) :
  lt (Num_of_nat (first_failing bound fuel i)) bound = false ->
  first_failing bound (fuel + k) i = first_failing bound fuel i.
Proof.
  revert i. induction fuel as [|fuel IH]; intros i H; simpl in *.
  - destruct k; simpl; [reflexivity|]. by rewrite H.
  - destruct (lt (Num_of_nat i) bound); [by apply IH|reflexivity].
Qed.

(** The loop test fails where the count of iterations stops. *)
Lemma iterations_stop :
  lt (Num_of_nat (iterations output)) (numDetections output) = false.
Proof.
  unfold iterations.
  destruct (first_failing_stops (numDetections output) 10 0) as [->|H]; [|exact H].
  apply lt_ten_min.
Qed.

Lemma iterations_le_10 : (iterations output <= 10)%nat.
Proof. apply (first_failing_le (numDetections output) 10 0). Qed.

(** [processOutput] with any fuel from 11 on: the records of the kept
    detections, and two draws consumed for each. *)
Lemma processOutput_fuel_spec (fuel : nat) (g : rng) :
  (11 <= fuel)%nat ->
  processOutput_fuel fuel g output =
    Some (records output (draws g) (cursor g) (kept output),
          advance g (2 * length (kept output))).
Proof.
  intros Hfuel. unfold processOutput_fuel.
  destruct fuel as [|fuel]; [lia|].
  pose proof iterations_stop as Hstop.
  assert (Hff : first_failing (numDetections output) fuel 0 = iterations output).
  { replace fuel with (10 + (fuel - 10))%nat by lia.
    by apply first_failing_more. }
  rewrite for_loop_first_failing by (by rewrite Hff).
  rewrite Hff, Nat.sub_0_r, foldl_loop_body. reflexivity.
Qed.

Lemma processOutput_spec (g : rng) :
  processOutput g output =
    Some (records output (draws g) (cursor g) (kept output),
          advance g (2 * length (kept output))).
Proof. apply processOutput_fuel_spec. lia. Qed.

End DecodingLoop.

(* ================================================================== *)
(** ** Integral first elements                                         *)
(* ================================================================== *)

Section IntegralNumbers.

(** The number of binary digits of a mantissa brackets it. *)
Lemma digits2_pos_bounds (m : positive) :
  2 ^ (Z.pos (digits2_pos m) - 1) <= Z.pos m < 2 ^ Z.pos (digits2_pos m).
Proof.
  induction m as [m IH|m IH|]; simpl digits2_pos.
  - rewrite Pos2Z.inj_succ, Z.pow_succ_r by lia.
    replace (Z.succ (Z.pos (digits2_pos m)) - 1) with (Z.succ (Z.pos (digits2_pos m) - 1)) by lia.
    rewrite Z.pow_succ_r by lia. lia.
  - rewrite Pos2Z.inj_succ, Z.pow_succ_r by lia.
    replace (Z.succ (Z.pos (digits2_pos m)) - 1) with (Z.succ (Z.pos (digits2_pos m) - 1)) by lia.
    rewrite Z.pow_succ_r by lia. lia.
  - simpl. lia.
Qed.

(** What validity says of a finite binary64 value. *)
Lemma valid_finite (s : bool) (m : positive) (e : Z) :
  valid_binary 53 1024 (S754_finite s m e) = true ->
  -1074 <= e <= 971 /\ Z.pos m < 2 ^ 53 /\ (-1074 < e -> 2 ^ 52 <= Z.pos m).
Proof.
  unfold valid_binary, bounded, canonical_mantissa, fexp, emin.
  intros H. apply andb_true_iff in H as [Hc He].
  apply Z.eqb_eq in Hc. apply Z.leb_le in He.
  pose proof (digits2_pos_bounds m) as [Hlo Hhi].
  assert (Hd : Z.pos (digits2_pos m) <= 53) by lia.
  repeat split; try lia.
  - eapply Z.lt_le_trans; [exact Hhi|]. apply Z.pow_le_mono_r; lia.
  - intros Hsub. assert (Z.pos (digits2_pos m) = 53) as Heq by lia.
    rewrite Heq in Hlo. exact Hlo.
Qed.

(** A positive mantissa known by its value. *)
Lemma mantissa_is (m : positive) (v : Z) : 0 < v -> Z.pos m = v -> m = Z.to_pos v.
Proof. intros Hv <-. reflexivity. Qed.

(** A positive value with a large exponent is above 10. *)
Lemma Math_min_large (m : positive) (e : Z) :
  -49 < e -> Math_min (S754_finite false m e) ten = ten.
Proof.
  intros Hlt. unfold Math_min, ten. cbn [SFcompare].
  destruct (Z.compare_spec e (-49)); try lia. reflexivity.
Qed.

(** When the first element is the integer [N], the loop runs
    [min N 10] times. *)
Lemma first_failing_integer (x : number) (N : nat) :
  valid_binary 53 1024 x = true ->
  integer_of x = Some (Z.of_nat N) ->
  first_failing (Math_min x ten) 10 0 = Nat.min N 10.
Proof.
  intros Hv Hi.
  destruct x as [s|s| |s m e]; simpl in Hi; try discriminate Hi.
  - injection Hi as HN. assert (N = 0%nat) as -> by lia.
    destruct s; vm_compute; reflexivity.
  - apply valid_finite in Hv as (He & Hm & Hnorm).
    assert (Hbig : -49 < e ->
      first_failing (Math_min (S754_finite false m e) ten) 10 0 = 10%nat).
    { intros Hlt. rewrite Math_min_large by exact Hlt. vm_compute. reflexivity. }
    destruct (0 <=? e) eqn:E0.
    + apply Z.leb_le in E0. injection Hi as Hi.
      assert (0 < 2 ^ e) by (apply Z.pow_pos_nonneg; lia).
      specialize (Hnorm ltac:(lia)).
      destruct s; simpl in Hi; [nia|].
      rewrite Hbig by lia.
      assert (2 ^ 52 <= Z.of_nat N) by nia.
      change (2 ^ 52) with 4503599627370496 in *. lia.
    + apply Z.leb_gt in E0.
      destruct (Z.pos m mod 2 ^ (- e) =? 0) eqn:Em; [|discriminate].
      apply Z.eqb_eq in Em. injection Hi as Hi.
      assert (Hpk : 0 < 2 ^ (- e)) by (apply Z.pow_pos_nonneg; lia).
      assert (Hmq : Z.pos m = 2 ^ (- e) * (Z.pos m / 2 ^ (- e))).
      { rewrite (Z.div_mod (Z.pos m) (2 ^ (- e))) at 1 by lia. lia. }
      assert (Hq : 0 < Z.pos m / 2 ^ (- e)).
      { destruct (Z_lt_le_dec 0 (Z.pos m / 2 ^ (- e))) as [|Hq]; [assumption|].
        pose proof (Z.div_pos (Z.pos m) (2 ^ (- e)) ltac:(lia) Hpk). nia. }
      assert (Hk : - e < 53).
      { apply (Z.pow_lt_mono_r_iff 2); [lia|lia|].
        eapply Z.le_lt_trans; [|exact Hm]. nia. }
      specialize (Hnorm ltac:(lia)).
      destruct s; simpl in Hi; [lia|].
      destruct (Z_lt_le_dec (-49) e) as [Hlt|Hle].
      * rewrite Hbig by lia.
        assert (2 ^ (- e) <= 2 ^ 48) by (apply Z.pow_le_mono_r; lia).
        change (2 ^ 52) with (2 ^ 48 * 16) in Hnorm.
        assert (16 <= Z.of_nat N) by nia. lia.
      * assert (e = -49 \/ e = -50 \/ e = -51 \/ e = -52) as Hcases by lia.
        change (2 ^ 52) with 4503599627370496 in Hnorm.
        change (2 ^ 53) with 9007199254740992 in Hm.
        rewrite Hi in Hmq.
        destruct Hcases as [->|[->|[->| ->]]]; simpl Z.opp in Hmq;
          match type of Hmq with
          | _ = 2 ^ ?k * _ =>
              let c := eval vm_compute in (2 ^ k) in change (2 ^ k) with c in Hmq
          end.
        -- assert (N = 8 \/ N = 9 \/ N = 10 \/ N = 11 \/ N = 12 \/ N = 13
                   \/ N = 14 \/ N = 15)%nat as HN by lia.
           repeat (destruct HN as [->|HN]); try subst N;
             (apply mantissa_is in Hmq; [subst m; vm_compute; reflexivity|lia]).
        -- assert (N = 4 \/ N = 5 \/ N = 6 \/ N = 7)%nat as HN by lia.
           repeat (destruct HN as [->|HN]); try subst N;
             (apply mantissa_is in Hmq; [subst m; vm_compute; reflexivity|lia]).
        -- assert (N = 2 \/ N = 3)%nat as HN by lia.
           repeat (destruct HN as [->|HN]); try subst N;
             (apply mantissa_is in Hmq; [subst m; vm_compute; reflexivity|lia]).
        -- assert (N = 1)%nat as -> by lia.
           apply mantissa_is in Hmq; [subst m; vm_compute; reflexivity|lia].
Qed.

End IntegralNumbers.

(* ================================================================== *)
(** ** The decoder [processOutput]                                     *)
(* ================================================================== *)

Section Decoder.

Lemma length_records (output : list number) d c (idxs : list nat) :
  length (records output d c idxs) = length idxs.
Proof. revert c. induction idxs as [|i idxs IH]; intros c; simpl; [|rewrite IH]; reflexivity. Qed.

Lemma length_kept (output : list number) : (length (kept output) <= iterations output)%nat.
Proof.
  unfold kept. etrans; [apply length_filter|]. by rewrite length_seq.
Qed.

Lemma advance_0 (g : rng) : advance g 0 = g.
Proof. destruct g. unfold advance. simpl. f_equal. lia. Qed.

(** At or below the threshold is not above it. *)
Lemma le_not_gt (c t : number) : le c t = true -> gt c t = false.
Proof.
  unfold le, gt, SFleb, SFltb. rewrite (SFcompare_antisym c t).
  destruct (SFcompare c t) as [[]|]; simpl; congruence.
Qed.

Lemma iterations_integer (output : list number) (x : number) (N : nat) :
  output !! 0%nat = Some x ->
  valid_binary 53 1024 x = true ->
  integer_of x = Some (Z.of_nat N) ->
  iterations output = Nat.min N 10.
Proof.
  intros H0 Hv Hi. unfold iterations, numDetections. rewrite H0.
  by apply first_failing_integer.
Qed.

Lemma iterations_nonpositive (output : list number) (x : number) :
  output !! 0%nat = Some x -> le x zero = true -> iterations output = 0%nat.
Proof.
  intros H0 Hle. unfold iterations, numDetections. rewrite H0. cbn [ToNumber].
  change (first_failing (Math_min x ten) 10 0)
    with (if lt zero (Math_min x ten)
          then first_failing (Math_min x ten) 9 1 else 0%nat).
  by rewrite lt_zero_min.
Qed.

Lemma iterations_truncated (output : list number) (x : number) :
  output !! 0%nat = Some x -> lt ten x = true -> iterations output = 10%nat.
Proof.
  intros H0 Hlt. unfold iterations, numDetections. rewrite H0. cbn [ToNumber].
  assert (Math_min x ten = ten) as ->; [|by vm_compute].
  unfold Math_min. unfold lt, SFltb in Hlt. rewrite (SFcompare_antisym ten x).
  destruct (SFcompare ten x) as [[]|]; try discriminate. reflexivity.
Qed.

(** A read past the end of the array never passes the threshold. *)
Lemma past_the_end_not_kept (output : list number) (i : nat) :
  (length output <= 1 + i * 6 + 4)%nat -> above_threshold output i = false.
Proof.
  intros Hlen. unfold above_threshold, confidence_at.
  by rewrite (lookup_ge_None_2 output _ Hlen).
Qed.

(** The decoder on concrete arrays. *)
Example processOutput_out_two :
  fst <$> processOutput Examples.g_alt Examples.out_two =
    Some [ {| confidence := Some one;
              bbox := {| x1 := Some zero; y1 := Some zero;
                         x2 := Some one; y2 := Some one |};
              text := "KA50AB2500" |} ].
Proof. vm_compute. reflexivity. Qed.

Example processOutput_out_short :
  fst <$> processOutput Examples.g_alt Examples.out_short =
    Some [ {| confidence := Some one;
              bbox := {| x1 := Some zero; y1 := Some zero;
                         x2 := Some one; y2 := Some one |};
              text := "KA50AB2500" |} ] /\
  iterations Examples.out_short = 10%nat.
Proof. vm_compute. split; reflexivity. Qed.

Example processOutput_empty_array :
  processOutput Examples.g_alt [] = Some ([], Examples.g_alt).
Proof. vm_compute. reflexivity. Qed.

(** C1.  When element 0 of the raw output is the non-negative integer [N]
    and the array holds [N] records of six numbers from index 1 on,
    [processOutput] returns at most [min N 10] records: the records, in
    order, of the detections [i < min N 10] whose confidence (the element
    at index [1 + i*6 + 4]) is strictly above 0.5.  A detection whose
    confidence is at or below 0.5 is left out, and so is every detection
    from the tenth on. *)
Theorem processOutput_keeps_confident (output : list number) (g : rng)
    (x : number) (N : nat) :
  output !! 0%nat = Some x ->
  valid_binary 53 1024 x = true ->
  integer_of x = Some (Z.of_nat N) ->
  (1 + 6 * N <= length output)%nat ->
  exists (plates : list plate) (g' : rng) (sel : list nat),
    processOutput g output = Some (plates, g') /\
    (length plates <= Nat.min N 10)%nat /\
    plates = records output (draws g) (cursor g) sel /\
    sel = filter (fun i => above_threshold output i = true) (seq 0 (Nat.min N 10)) /\
    (forall i : nat, (Nat.min N 10 <= i)%nat -> i ∉ sel) /\
    forall i : nat, (i < Nat.min N 10)%nat ->
      exists c : number,
        output !! (1 + i * 6 + 4)%nat = Some c /\
        (i ∈ sel <-> gt c CONFIDENCE_THRESHOLD = true) /\
        (le c CONFIDENCE_THRESHOLD = true -> i ∉ sel).
Proof.
  intros H0 Hv Hi Hlen.
  pose proof (iterations_integer output x N H0 Hv Hi) as Hit.
  exists (records output (draws g) (cursor g) (kept output)),
    (advance g (2 * length (kept output))), (kept output).
  split; [apply processOutput_spec|].
  split; [rewrite length_records, <- Hit; apply length_kept|].
  split; [reflexivity|].
  split; [unfold kept; by rewrite Hit|].
  split.
  { intros i Hge Hin. unfold kept in Hin.
    apply list_elem_of_filter in Hin as [_ Hin].
    rewrite Hit in Hin. apply elem_of_seq in Hin. lia. }
  intros i Hi'.
  destruct (lookup_lt_is_Some_2 output (1 + i * 6 + 4)%nat ltac:(lia)) as [c Hc].
  exists c. split; [exact Hc|].
  assert (Hmem : i ∈ kept output <-> gt c CONFIDENCE_THRESHOLD = true).
  { unfold kept. rewrite list_elem_of_filter, Hit, elem_of_seq.
    unfold above_threshold, confidence_at. rewrite Hc. cbn [ToNumber].
    split; [tauto|]. intros ?. split; [assumption|lia]. }
  split; [exact Hmem|].
  intros Hle Hin. apply Hmem in Hin. apply le_not_gt in Hle. congruence.
Qed.

(** An instance: two detections, the first with confidence 1, the second
    with confidence exactly 0.5. *)
Lemma processOutput_keeps_confident_witness :
  exists (plates : list plate) (g' : rng) (sel : list nat),
    processOutput Examples.g_alt Examples.out_two = Some (plates, g') /\
    (length plates <= Nat.min 2 10)%nat /\
    plates = records Examples.out_two (draws Examples.g_alt) (cursor Examples.g_alt) sel /\
    sel = filter (fun i => above_threshold Examples.out_two i = true) (seq 0 (Nat.min 2 10)) /\
    (forall i : nat, (Nat.min 2 10 <= i)%nat -> i ∉ sel) /\
    forall i : nat, (i < Nat.min 2 10)%nat ->
      exists c : number,
        Examples.out_two !! (1 + i * 6 + 4)%nat = Some c /\
        (i ∈ sel <-> gt c CONFIDENCE_THRESHOLD = true) /\
        (le c CONFIDENCE_THRESHOLD = true -> i ∉ sel).
Proof.
  apply (processOutput_keeps_confident Examples.out_two Examples.g_alt (Num_of_Z 2) 2).
  - reflexivity.
  - vm_compute. reflexivity.
  - vm_compute. reflexivity.
  - simpl. lia.
Defined.

(** C8.  [processOutput] returns normally on every array, whatever its
    length: eleven tests of the loop condition always suffice, a count
    above 10 is cut to 10 iterations, at most ten records come back, and
    a detection whose confidence would be read past the end of the array
    yields no record. *)
Theorem processOutput_total (output : list number) (g : rng) :
  exists (plates : list plate) (g' : rng),
    processOutput g output = Some (plates, g') /\
    (forall fuel : nat, (11 <= fuel)%nat ->
       processOutput_fuel fuel g output = Some (plates, g')) /\
    plates = records output (draws g) (cursor g) (kept output) /\
    (length plates <= iterations output <= 10)%nat /\
    (forall x : number,
       output !! 0%nat = Some x -> lt ten x = true -> iterations output = 10%nat) /\
    (forall i : nat, (length output <= 1 + i * 6 + 4)%nat -> i ∉ kept output).
Proof.
  exists (records output (draws g) (cursor g) (kept output)),
    (advance g (2 * length (kept output))).
  split; [apply processOutput_spec|].
  split; [intros fuel Hfuel; by apply processOutput_fuel_spec|].
  split; [reflexivity|].
  split; [rewrite length_records; split;
          [apply length_kept|apply iterations_le_10]|].
  split; [apply iterations_truncated|].
  intros i Hlen Hin. unfold kept in Hin.
  apply list_elem_of_filter in Hin as [Hab _].
  rewrite past_the_end_not_kept in Hab by exact Hlen. discriminate.
Qed.

(** When the loop body never runs, nothing is returned and nothing is
    drawn. *)
Lemma processOutput_no_iteration (output : list number) (g : rng) :
  iterations output = 0%nat -> processOutput g output = Some ([], g).
Proof.
  intros Hit. rewrite processOutput_spec. unfold kept. rewrite Hit. cbn.
  by rewrite advance_0.
Qed.

(** C10.  When the first element of the raw output is at or below zero
    (negative values and minus infinity included), [processOutput] returns
    the empty list: the loop body never runs, so no other element is read
    and no random number is drawn. *)
Theorem processOutput_nonpositive_count (output : list number) (g : rng)
    (x : number) :
  output !! 0%nat = Some x ->
  le x zero = true ->
  iterations output = 0%nat /\ processOutput g output = Some ([], g).
Proof.
  intros H0 Hle.
  pose proof (iterations_nonpositive output x H0 Hle) as Hit.
  split; [exact Hit|]. by apply processOutput_no_iteration.
Qed.

(** An instance: a count of -3. *)
Lemma processOutput_nonpositive_count_witness :
  iterations Examples.out_negative = 0%nat /\
  processOutput Examples.g_alt Examples.out_negative = Some ([], Examples.g_alt).
Proof.
  apply (processOutput_nonpositive_count Examples.out_negative Examples.g_alt
           (Num_of_Z (-3))).
  - reflexivity.
  - vm_compute. reflexivity.
Defined.

End Decoder.

(* ================================================================== *)
(** ** The selection step of [processImage]                            *)
(* ================================================================== *)

Section Selection.

Lemma better_eq (a c : plate) :
  better a c = if lt (conf c) (conf a) then a else c.
Proof. reflexivity. Qed.

(** The accumulator of the reduction: nothing before it is higher, and
    everything after it is strictly lower. *)
Lemma foldl_better_split (rest before after : list plate) (a : plate) :
  Forall comparable (before ++ a :: after ++ rest) ->
  Forall (fun p => le (conf p) (conf a) = true) before ->
  Forall (fun p => lt (conf p) (conf a) = true) after ->
  exists before' after' : list plate,
    before ++ a :: after ++ rest = before' ++ foldl better a rest :: after' /\
    Forall (fun p => le (conf p) (conf (foldl better a rest)) = true) before' /\
    Forall (fun p => lt (conf p) (conf (foldl better a rest)) = true) after'.
Proof.
  revert before after a.
  induction rest as [|c rest IH]; intros before after a Hcmp Hbefore Hafter.
  - exists before, after. rewrite app_nil_r. auto.
  - cbn [foldl]. rewrite better_eq.
    destruct (lt (conf c) (conf a)) eqn:Hca.
    + destruct (IH before (after ++ [c]) a) as (b' & a' & Heq & Hb & Ha).
      * by rewrite <- app_assoc.
      * exact Hbefore.
      * apply Forall_app. split; [exact Hafter|]. by repeat constructor.
      * exists b', a'. rewrite <- Heq, <- app_assoc. auto.
    + assert (Hac : le (conf a) (conf c) = true).
      { apply le_total; [| |exact Hca].
        - apply Forall_app in Hcmp as [_ Hcmp]. by inversion Hcmp.
        - apply Forall_app in Hcmp as [_ Hcmp]. inversion Hcmp as [|? ? _ Hcmp']; subst.
          apply Forall_app in Hcmp' as [_ Hcmp']. by inversion Hcmp'. }
      destruct (IH (before ++ a :: after) [] c) as (b' & a' & Heq & Hb & Ha).
      * by rewrite <- app_assoc.
      * apply Forall_app. split; [|constructor; [exact Hac|]].
        -- eapply Forall_impl; [exact Hbefore|]. intros p Hp. exact (le_trans _ _ _ Hp Hac).
        -- eapply Forall_impl; [exact Hafter|]. intros p Hp.
           exact (le_trans _ _ _ (lt_le _ _ Hp) Hac).
      * constructor.
      * exists b', a'. rewrite <- Heq, <- app_assoc. auto.
Qed.

(** C2, as the code has it.  On a non-empty list of candidates (none with
    a NaN confidence) the selection returns a candidate that no other
    exceeds in confidence, and every candidate after it is strictly lower:
    among candidates of equal, highest confidence the one encountered
    last is selected. *)
Theorem bestPlate_is_last_maximum (first : plate) (rest : list plate) :
  Forall comparable (first :: rest) ->
  exists before after : list plate,
    first :: rest = before ++ bestPlate first rest :: after /\
    Forall (fun p => le (conf p) (conf (bestPlate first rest)) = true) before /\
    Forall (fun p => lt (conf p) (conf (bestPlate first rest)) = true) after /\
    Forall (fun p => gt (conf p) (conf (bestPlate first rest)) = false) (first :: rest).
Proof.
  intros Hcmp.
  destruct (foldl_better_split rest [] [] first Hcmp) as (b & a & Heq & Hb & Ha);
    [constructor|constructor|].
  exists b, a. cbn [app] in Heq. unfold bestPlate.
  repeat split; try assumption.
  rewrite Heq. apply Forall_app. split; [|constructor].
  - eapply Forall_impl; [exact Hb|]. intros p Hp. by apply le_not_gt.
  - apply lt_irrefl.
  - eapply Forall_impl; [exact Ha|]. intros p Hp. by apply lt_gt_false.
Qed.

(** An instance: two candidates of confidence 1. *)
Lemma bestPlate_is_last_maximum_witness :
  exists before after : list plate,
    [Examples.plate_a; Examples.plate_b]
      = before ++ bestPlate Examples.plate_a [Examples.plate_b] :: after /\
    Forall (fun p => le (conf p) (conf (bestPlate Examples.plate_a [Examples.plate_b])) = true) before /\
    Forall (fun p => lt (conf p) (conf (bestPlate Examples.plate_a [Examples.plate_b])) = true) after /\
    Forall (fun p => gt (conf p) (conf (bestPlate Examples.plate_a [Examples.plate_b])) = false)
      [Examples.plate_a; Examples.plate_b].
Proof.
  apply (bestPlate_is_last_maximum Examples.plate_a [Examples.plate_b]).
  repeat constructor; discriminate.
Defined.

(** C2, as the specification words it, fails: of two candidates with the
    same confidence the selection returns the second, not the first. *)
Lemma bestPlate_tie_takes_later :
  confidence Examples.plate_a = confidence Examples.plate_b /\
  bestPlate Examples.plate_a [Examples.plate_b] = Examples.plate_b /\
  bestPlate Examples.plate_a [Examples.plate_b] <> Examples.plate_a.
Proof.
  split; [reflexivity|]. split; [reflexivity|].
  vm_compute. discriminate.
Qed.

End Selection.

(* ================================================================== *)
(** ** The orchestration [processImage]                                *)
(* ================================================================== *)

Section Orchestration.

(** Every record of [processOutput] has a confidence that compares. *)
Lemma records_comparable (output : list number) d c (idxs : list nat) :
  Forall (fun i => above_threshold output i = true) idxs ->
  Forall comparable (records output d c idxs).
Proof.
  intros H. revert c. induction H as [|i idxs Hi _ IH]; intros c; constructor.
  - unfold comparable, conf, record_at; cbn [confidence].
    unfold above_threshold in Hi. by apply lt_not_nan in Hi as [_ ?].
  - apply IH.
Qed.

Lemma processOutput_comparable (output : list number) (g g' : rng)
    (plates : list plate) :
  processOutput g output = Some (plates, g') -> Forall comparable plates.
Proof.
  rewrite processOutput_spec. intros [= <- _].
  apply records_comparable, Forall_forall. intros i Hi.
  unfold kept in Hi. by apply list_elem_of_filter in Hi as [? _].
Qed.

(** An infrastructure failure is reported with its own message, or with
    the generic text when it has none. *)
Lemma processImage_infrastructure_failure (type_error : string) (g : rng) (e : exn) :
  processImage type_error g (inl e) =
    Some ([Alert "Processing Failed"
             (if String.eqb (message_of e) ""
              then "Could not detect license plate. Try again or enter manually."
              else message_of e);
           SetIsProcessing false], g).
Proof. reflexivity. Qed.

(** C6.  When element 0 of the raw output equals 0, [processOutput]
    returns the empty list, and [processImage] throws its own error,
    "No license plates detected": the screen shows that alert, resets the
    processing flag and does not navigate.  An infrastructure failure with
    any other message produces a different alert. *)
Theorem processImage_no_detection (type_error : string) (g : rng)
    (output : list number) (others : list (list number)) (x : number) :
  output !! 0%nat = Some x ->
  SFeqb x zero = true ->
  processOutput g output = Some ([], g) /\
  processImage_try type_error g (inr (output :: others)) =
    Some ([], Some (Error "No license plates detected"), g) /\
  processImage type_error g (inr (output :: others)) =
    Some ([Alert "Processing Failed" "No license plates detected";
           SetIsProcessing false], g) /\
  (forall e : exn,
     message_of e <> "No license plates detected"%string ->
     message_of e <> ""%string ->
     processImage type_error g (inl e) =
       Some ([Alert "Processing Failed" (message_of e); SetIsProcessing false], g) /\
     processImage type_error g (inl e) <>
       processImage type_error g (inr (output :: others))).
Proof.
  intros H0 Hx.
  assert (Hle : le x zero = true).
  { unfold le, SFleb. unfold SFeqb in Hx. by destruct (SFcompare x zero) as [[]|]. }
  assert (Hout : processOutput g output = Some ([], g)).
  { apply processOutput_no_iteration. by apply (iterations_nonpositive output x). }
  assert (Htry : processImage_try type_error g (inr (output :: others)) =
                 Some ([], Some (Error "No license plates detected"), g)).
  { unfold processImage_try. cbn [lookup list_lookup]. by rewrite Hout. }
  assert (Hrun : processImage type_error g (inr (output :: others)) =
                 Some ([Alert "Processing Failed" "No license plates detected";
                        SetIsProcessing false], g)).
  { unfold processImage. by rewrite Htry. }
  repeat split; try assumption.
  - rewrite processImage_infrastructure_failure.
    destruct (String.eqb_spec (message_of e) ""); [contradiction|reflexivity].
  - rewrite Hrun, processImage_infrastructure_failure.
    destruct (String.eqb_spec (message_of e) ""); [contradiction|].
    intros [= Heq]. contradiction.
Qed.

(** An instance: a count of 0 followed by a record that is never read. *)
Lemma processImage_no_detection_witness :
  processOutput Examples.g_alt Examples.out_none = Some ([], Examples.g_alt) /\
  processImage_try "TypeError" Examples.g_alt (inr [Examples.out_none]) =
    Some ([], Some (Error "No license plates detected"), Examples.g_alt) /\
  processImage "TypeError" Examples.g_alt (inr [Examples.out_none]) =
    Some ([Alert "Processing Failed" "No license plates detected";
           SetIsProcessing false], Examples.g_alt) /\
  (forall e : exn,
     message_of e <> "No license plates detected"%string ->
     message_of e <> ""%string ->
     processImage "TypeError" Examples.g_alt (inl e) =
       Some ([Alert "Processing Failed" (message_of e); SetIsProcessing false],
             Examples.g_alt) /\
     processImage "TypeError" Examples.g_alt (inl e) <>
       processImage "TypeError" Examples.g_alt (inr [Examples.out_none])).
Proof.
  apply (processImage_no_detection "TypeError" Examples.g_alt Examples.out_none [] zero).
  - reflexivity.
  - reflexivity.
Defined.

End Orchestration.

(* ================================================================== *)
(** ** The resizer [resizeNearestNeighbor]                             *)
(* ================================================================== *)

Section Resizer.

Local Open Scope nat_scope.

Variable img : image.
Variables newW newH : nat.

Let oldW := width img.
Let oldH := height img.
Let oldData := data img.

(** The source column of destination column [x] and the source row of
    destination row [y], as the loops compute them. *)
Let srcX (x : nat) : number :=
  source_coordinate (Z.of_nat x) (Z.of_nat oldW) (Z.of_nat newW).
Let srcY (y : nat) : number :=
  source_coordinate (Z.of_nat y) (Z.of_nat oldH) (Z.of_nat newH).

(** Index arithmetic of the destination buffer. *)
Lemma pixel_index (x y c : nat) :
  x < newW -> c < 4 ->
  ((y * newW + x) * 4 + c) / 4 = y * newW + x /\
  ((y * newW + x) * 4 + c) mod 4 = c /\
  (y * newW + x) / newW = y /\
  (y * newW + x) mod newW = x.
Proof.
  intros Hx Hc. repeat split; symmetry.
  - apply (Nat.div_unique _ 4 _ c); lia.
  - apply (Nat.mod_unique _ 4 (y * newW + x)); lia.
  - apply (Nat.div_unique _ newW _ x); lia.
  - apply (Nat.mod_unique _ newW y); lia.
Qed.

Lemma nearest_sample_at (x y c : nat) :
  x < newW -> c < 4 ->
  nearest_sample img newW newH ((y * newW + x) * 4 + c) =
    ToUint8 (read_sample oldData (source_index oldW (srcY y) (srcX x)) c).
Proof.
  intros Hx Hc. unfold nearest_sample.
  destruct (pixel_index x y c Hx Hc) as (-> & -> & -> & ->). reflexivity.
Qed.

Lemma length_copy_pixel (sy : number) (y x : nat) (newData : list Byte.byte) :
  length (copy_pixel oldData oldW newW sy y newData x) = length newData.
Proof. unfold copy_pixel. by rewrite !length_insert. Qed.

(** One run of the inner body overwrites the four samples of pixel
    (x, y) and nothing else. *)
Lemma copy_pixel_lookup (y x k : nat) (newData : list Byte.byte) :
  x < newW ->
  copy_pixel oldData oldW newW (srcY y) y newData x !! k =
    if decide ((y * newW + x) * 4 <= k < (y * newW + x) * 4 + 4 /\ k < length newData)
    then Some (nearest_sample img newW newH k)
    else newData !! k.
Proof.
  intros Hx. unfold copy_pixel.
  rewrite !list_lookup_insert, !length_insert.
  repeat case_decide; try lia; try reflexivity;
    match goal with
    | H : ?i = k /\ _ |- _ => destruct H as [<- _]
    end; by rewrite nearest_sample_at by lia.
Qed.

(** The inner loop, run for the first [n] pixels of row [y]. *)
Lemma copy_row_prefix_lookup (y n k : nat) (newData : list Byte.byte) :
  n <= newW ->
  foldl (copy_pixel oldData oldW newW (srcY y) y) newData (seq 0 n) !! k =
    if decide (y * newW * 4 <= k < (y * newW + n) * 4 /\ k < length newData)
    then Some (nearest_sample img newW newH k)
    else newData !! k.
Proof.
  induction n as [|n IH]; intros Hn.
  - cbn [seq foldl]. case_decide; [lia|reflexivity].
  - rewrite seq_S, foldl_app. cbn [foldl]. rewrite Nat.add_0_l.
    rewrite copy_pixel_lookup by lia.
    assert (Hlen : forall l m, length (foldl (copy_pixel oldData oldW newW (srcY y) y)
                                  m l) = length m).
    { induction l as [|a l IHl]; intros m; [reflexivity|].
      cbn [foldl]. by rewrite IHl, length_copy_pixel. }
    rewrite Hlen, IH by lia.
    repeat case_decide; try lia; reflexivity.
Qed.

Lemma length_copy_row (y : nat) (newData : list Byte.byte) :
  length (copy_row oldData oldW oldH newW newH newData y) = length newData.
Proof.
  unfold copy_row. generalize (seq 0 newW). intros l. revert newData.
  induction l as [|a l IHl]; intros m; [reflexivity|].
  cbn [foldl]. by rewrite IHl, length_copy_pixel.
Qed.

Lemma copy_row_lookup (y k : nat) (newData : list Byte.byte) :
  copy_row oldData oldW oldH newW newH newData y !! k =
    if decide (y * newW * 4 <= k < (y + 1) * newW * 4 /\ k < length newData)
    then Some (nearest_sample img newW newH k)
    else newData !! k.
Proof.
  unfold copy_row. cbv zeta. fold (srcY y). rewrite copy_row_prefix_lookup by lia.
  repeat case_decide; try lia; reflexivity.
Qed.

Lemma length_copy_rows (ys : list nat) (newData : list Byte.byte) :
  length (foldl (copy_row oldData oldW oldH newW newH) newData ys) = length newData.
Proof.
  revert newData. induction ys as [|y ys IH]; intros m; [reflexivity|].
  cbn [foldl]. by rewrite IH, length_copy_row.
Qed.

(** The outer loop, run for the first [h] rows. *)
Lemma copy_rows_lookup (h k : nat) (newData : list Byte.byte) :
  foldl (copy_row oldData oldW oldH newW newH) newData (seq 0 h) !! k =
    if decide (k < h * newW * 4 /\ k < length newData)
    then Some (nearest_sample img newW newH k)
    else newData !! k.
Proof.
  induction h as [|h IH].
  - cbn [seq foldl]. case_decide; [lia|reflexivity].
  - rewrite seq_S, foldl_app. cbn [foldl]. rewrite Nat.add_0_l.
    rewrite copy_row_lookup, length_copy_rows, IH.
    repeat case_decide; try lia; reflexivity.
Qed.

(** The resized buffer has four samples for each destination pixel, and
    each of them is the nearest-neighbour sample. *)
Lemma length_resizeNearestNeighbor :
  length (data (resizeNearestNeighbor img newW newH)) = newW * newH * 4.
Proof.
  unfold resizeNearestNeighbor. cbn [data].
  by rewrite length_copy_rows, length_replicate.
Qed.

Lemma resizeNearestNeighbor_lookup (k : nat) :
  k < newW * newH * 4 ->
  data (resizeNearestNeighbor img newW newH) !! k =
    Some (nearest_sample img newW newH k).
Proof.
  intros Hk. unfold resizeNearestNeighbor. cbn [data].
  rewrite copy_rows_lookup, length_replicate.
  case_decide; [reflexivity|lia].
Qed.

End Resizer.

(* ================================================================== *)
(** ** The converter [base64ToTensor]                                  *)
(* ================================================================== *)

Section Converter.

Local Open Scope nat_scope.

(** Every byte over 255, rounded to binary32, lies between 0 and 1. *)
Lemma normalize_range (b : Byte.byte) : in_unit_interval (normalize (Some b)).
Proof. destruct b; vm_compute; split; reflexivity. Qed.

Variable rgba : list Byte.byte.

Lemma length_fill_pixel (tensor : list number) (i : nat) :
  length (fill_pixel rgba tensor i) = length tensor.
Proof. unfold fill_pixel. by rewrite !length_insert. Qed.

Lemma length_fill_pixels (idxs : list nat) (tensor : list number) :
  length (foldl (fill_pixel rgba) tensor idxs) = length tensor.
Proof.
  revert tensor. induction idxs as [|i idxs IH]; intros t; [reflexivity|].
  cbn [foldl]. by rewrite IH, length_fill_pixel.
Qed.

Lemma tensor_sample_at (i c : nat) :
  c < 3 -> tensor_sample rgba (i * 3 + c) = normalize (rgba !! (i * 4 + c)).
Proof.
  intros Hc. unfold tensor_sample.
  rewrite <- (Nat.div_unique (i * 3 + c) 3 i c) by lia.
  rewrite <- (Nat.mod_unique (i * 3 + c) 3 i c) by lia.
  reflexivity.
Qed.

(** One run of the body overwrites the three channels of pixel [i]. *)
Lemma fill_pixel_lookup (i k : nat) (tensor : list number) :
  fill_pixel rgba tensor i !! k =
    if decide (i * 3 <= k < i * 3 + 3 /\ k < length tensor)
    then Some (tensor_sample rgba k)
    else tensor !! k.
Proof.
  unfold fill_pixel. rewrite !list_lookup_insert, !length_insert.
  repeat case_decide; try lia; try reflexivity;
    match goal with
    | H : ?j = k /\ _ |- _ => destruct H as [<- _]
    end; by rewrite tensor_sample_at by lia.
Qed.

(** The loop, run for the first [n] pixels. *)
Lemma fill_pixels_lookup (n k : nat) (tensor : list number) :
  foldl (fill_pixel rgba) tensor (seq 0 n) !! k =
    if decide (k < n * 3 /\ k < length tensor)
    then Some (tensor_sample rgba k)
    else tensor !! k.
Proof.
  induction n as [|n IH].
  - cbn [seq foldl]. case_decide; [lia|reflexivity].
  - rewrite seq_S, foldl_app. cbn [foldl]. rewrite Nat.add_0_l.
    rewrite fill_pixel_lookup, length_fill_pixels, IH.
    repeat case_decide; try lia; reflexivity.
Qed.

End Converter.

Section ConverterTheorems.

Local Open Scope nat_scope.

Lemma length_tensor_of_image (raw : image) (targetW targetH : nat) :
  length (tensor_of_image raw targetW targetH) = targetW * targetH * 3.
Proof.
  unfold tensor_of_image. by rewrite length_fill_pixels, length_replicate.
Qed.

(** Each element of the tensor is one of the three colour samples of the
    resized image, over 255. *)
Lemma tensor_of_image_lookup (raw : image) (targetW targetH k : nat) :
  k < targetW * targetH * 3 ->
  tensor_of_image raw targetW targetH !! k =
    Some (normalize (Some (nearest_sample raw targetW targetH (k / 3 * 4 + k mod 3)))).
Proof.
  intros Hk. unfold tensor_of_image.
  rewrite fill_pixels_lookup, length_replicate.
  case_decide; [|lia].
  unfold tensor_sample.
  assert (k / 3 < targetW * targetH) by (apply Nat.Div0.div_lt_upper_bound; lia).
  assert (k mod 3 < 3) by (apply Nat.mod_upper_bound; lia).
  rewrite resizeNearestNeighbor_lookup by lia. reflexivity.
Qed.



End ConverterTheorems.

(* ================================================================== *)
(** ** The data-URI prefix                                             *)
(* ================================================================== *)

Section DataUri.

Local Open Scope string_scope.

Lemma append_assoc (a b c : string) : (a ++ b) ++ c = a ++ (b ++ c).
Proof. induction a as [|x a IH]; [reflexivity|]. cbn. by rewrite IH. Qed.

Lemma strip_literal_app (p s : string) : strip_literal p (p ++ s) = Some s.
Proof.
  induction p as [|a p IH]; [reflexivity|].
  cbn. by rewrite Ascii.eqb_refl.
Qed.

Lemma strip_literal_Some (p s r : string) :
  strip_literal p s = Some r -> s = p ++ r.
Proof.
  revert s. induction p as [|a p IH]; intros s; cbn.
  - by intros [= ->].
  - destruct s as [|b s]; [discriminate|].
    destruct (Ascii.eqb_spec a b) as [->|]; [|discriminate].
    intros Hr. by rewrite (IH s Hr).
Qed.

(** A run of word characters is skipped whole. *)
Lemma skip_word_app (w t : string) :
  all_chars is_word_char w = true -> skip_word (w ++ t) = skip_word t.
Proof.
  induction w as [|c w IH]; [reflexivity|].
  cbn. intros [Hc Hw]%andb_true_iff. rewrite Hc. by apply IH.
Qed.

(** The prefix is removed from a prefixed string, whatever follows it. *)
Lemma strip_data_uri_header (word s : string) :
  word <> "" -> all_chars is_word_char word = true ->
  strip_data_uri (data_uri_header word ++ s) = s.
Proof.
  intros Hne Hw. unfold strip_data_uri, data_uri_header.
  rewrite append_assoc, strip_literal_app.
  destruct word as [|c w]; [contradiction|].
  cbn in Hw. apply andb_true_iff in Hw as [Hc Hw].
  cbn [String.append]. rewrite Hc.
  rewrite append_assoc, skip_word_app by exact Hw.
  change (skip_word (";base64," ++ s)) with (";base64," ++ s).
  by rewrite strip_literal_app.
Qed.

(** A string over the base64 alphabet has no prefix to remove. *)
Lemma strip_data_uri_base64 (s : string) :
  all_chars is_base64_char s = true -> strip_data_uri s = s.
Proof.
  intros Hs. unfold strip_data_uri.
  destruct (strip_literal "data:image/" s) as [r|] eqn:E; [|reflexivity].
  apply strip_literal_Some in E. subst s. cbn in Hs. discriminate.
Qed.

(** The header is only recognised when what follows [data:image/] is a
    run of word characters: a subtype such as [svg+xml] is left in place. *)
Example strip_data_uri_examples :
  strip_data_uri "data:image/png;base64,iVBORw0KGgo=" = "iVBORw0KGgo=" /\
  strip_data_uri "data:image/svg+xml;base64,PHN2Zz4=" = "data:image/svg+xml;base64,PHN2Zz4=" /\
  strip_data_uri "data:image/;base64,AAAA" = "data:image/;base64,AAAA".
Proof. repeat split; reflexivity. Qed.

(** C5.  For a raw base64 string [s] and a header
    [data:image/<word>;base64,], the converter strips exactly the header
    from the prefixed string and nothing from [s] itself, so both inputs
    are decoded from the same text: the same bytes and the same tensor. *)
Theorem base64ToTensor_ignores_data_uri_prefix `{Libraries} (s word : string)
    (targetW targetH : nat) :
  all_chars is_base64_char s = true ->
  word <> "" ->
  all_chars is_word_char word = true ->
  strip_data_uri (data_uri_header word ++ s) = s /\
  strip_data_uri s = s /\
  Buffer_from_base64 (strip_data_uri (data_uri_header word ++ s))
    = Buffer_from_base64 (strip_data_uri s) /\
  base64ToTensor (data_uri_header word ++ s) targetW targetH
    = base64ToTensor s targetW targetH.
Proof.
  intros Hs Hne Hw.
  pose proof (strip_data_uri_header word s Hne Hw) as H1.
  pose proof (strip_data_uri_base64 s Hs) as H2.
  repeat split; try assumption.
  - by rewrite H1, H2.
  - unfold base64ToTensor. by rewrite H1, H2.
Qed.

(** An instance: the header [data:image/jpeg;base64,]. *)
Lemma base64ToTensor_ignores_data_uri_prefix_witness :
  strip_data_uri (data_uri_header "jpeg" ++ "/9j/4AAQSkZJRg==") = "/9j/4AAQSkZJRg==" /\
  strip_data_uri "/9j/4AAQSkZJRg==" = "/9j/4AAQSkZJRg==" /\
  @Buffer_from_base64 Examples.libs
      (strip_data_uri (data_uri_header "jpeg" ++ "/9j/4AAQSkZJRg=="))
    = @Buffer_from_base64 Examples.libs (strip_data_uri "/9j/4AAQSkZJRg==") /\
  @base64ToTensor Examples.libs (data_uri_header "jpeg" ++ "/9j/4AAQSkZJRg==") 3 2
    = @base64ToTensor Examples.libs "/9j/4AAQSkZJRg==" 3 2.
Proof.
  apply (@base64ToTensor_ignores_data_uri_prefix Examples.libs
           "/9j/4AAQSkZJRg==" "jpeg" 3 2).
  - reflexivity.
  - discriminate.
  - reflexivity.
Defined.

End DataUri.

(* ================================================================== *)
(** ** Rounding of a product to binary64                               *)
(* ================================================================== *)

Section Rounding.

(** One shift to the right halves the mantissa and keeps the bit that
    fell off. *)
Lemma shr_1_spec (mrs : shr_record) :
  0 <= shr_m mrs ->
  shr_m (shr_1 mrs) = shr_m mrs / 2 /\ shr_r (shr_1 mrs) = Z.odd (shr_m mrs).
Proof.
  destruct mrs as [m r s]. cbn [shr_m]. intros Hm.
  rewrite <- Z.div2_div.
  destruct m as [|[p|p|]|p]; try lia; split; reflexivity.
Qed.

Lemma pow2_pos (k : Z) : 0 <= k -> 0 < 2 ^ k.
Proof. intros. apply Z.pow_pos_nonneg; lia. Qed.

(** [p] shifts divide the mantissa by 2^p; the round bit is the last bit
    that fell off. *)
Lemma iter_shr_1_spec (p : positive) (mrs : shr_record) :
  0 <= shr_m mrs ->
  shr_m (SpecFloat.iter_pos shr_1 p mrs) = shr_m mrs / 2 ^ Z.pos p /\
  shr_r (SpecFloat.iter_pos shr_1 p mrs) = Z.odd (shr_m mrs / 2 ^ (Z.pos p - 1)).
Proof.
  revert mrs. induction p as [p IH|p IH|]; intros mrs Hm; cbn [SpecFloat.iter_pos].
  - destruct (shr_1_spec mrs Hm) as [H1 _].
    assert (Ha : 0 <= shr_m (shr_1 mrs)) by (rewrite H1; apply Z.div_pos; lia).
    destruct (IH (shr_1 mrs) Ha) as [H2 _].
    assert (Hb : 0 <= shr_m (SpecFloat.iter_pos shr_1 p (shr_1 mrs)))
      by (rewrite H2; apply Z.div_pos; [lia|apply pow2_pos; lia]).
    destruct (IH _ Hb) as [H3 H4].
    pose proof (pow2_pos (Z.pos p) ltac:(lia)) as Hp.
    pose proof (pow2_pos (Z.pos p - 1) ltac:(lia)) as Hp'.
    rewrite H3, H4, H2, H1, !Z.div_div by lia.
    replace (Z.pos p~1) with (1 + Z.pos p + Z.pos p) by lia.
    replace (1 + Z.pos p + Z.pos p - 1) with (1 + Z.pos p + (Z.pos p - 1)) by lia.
    rewrite !Z.pow_add_r by lia. change (2 ^ 1) with 2.
    split; [f_equal; ring|do 2 f_equal; ring].
  - destruct (IH mrs Hm) as [H2 _].
    assert (Hb : 0 <= shr_m (SpecFloat.iter_pos shr_1 p mrs))
      by (rewrite H2; apply Z.div_pos; [lia|apply pow2_pos; lia]).
    destruct (IH _ Hb) as [H3 H4].
    pose proof (pow2_pos (Z.pos p) ltac:(lia)) as Hp.
    pose proof (pow2_pos (Z.pos p - 1) ltac:(lia)) as Hp'.
    rewrite H3, H4, H2, !Z.div_div by lia.
    replace (Z.pos p~0) with (Z.pos p + Z.pos p) by lia.
    replace (Z.pos p + Z.pos p - 1) with (Z.pos p + (Z.pos p - 1)) by lia.
    rewrite !Z.pow_add_r by lia. split; [f_equal; ring|do 2 f_equal; ring].
  - destruct (shr_1_spec mrs Hm) as [H1 H2].
    rewrite H1, H2. change (2 ^ (1 - 1)) with 1. change (2 ^ 1) with 2.
    by rewrite Z.div_1_r.
Qed.

(** A shift by [n] places, or none when [n] is not positive. *)
Lemma shr_spec (m e n : Z) :
  0 <= m ->
  snd (shr (Build_shr_record m false false) e n) = e + Z.max 0 n /\
  shr_m (fst (shr (Build_shr_record m false false) e n)) = m / 2 ^ Z.max 0 n /\
  (0 < n ->
   shr_r (fst (shr (Build_shr_record m false false) e n)) = Z.odd (m / 2 ^ (n - 1))) /\
  (n <= 0 ->
   fst (shr (Build_shr_record m false false) e n) = Build_shr_record m false false).
Proof.
  intros Hm. destruct n as [|p|p]; cbn [shr fst snd shr_m].
  - rewrite Z.div_1_r. split; [cbn; lia|]. split; [reflexivity|]. split; [lia|reflexivity].
  - destruct (iter_shr_1_spec p (Build_shr_record m false false) Hm) as [H1 H2].
    cbn [shr_m] in *. rewrite Z.max_r by lia.
    split; [reflexivity|]. split; [exact H1|]. split; [intros _; exact H2|lia].
  - rewrite Z.max_l by lia. rewrite Z.div_1_r.
    split; [lia|]. split; [reflexivity|]. split; [lia|reflexivity].
Qed.

(** Rounding to nearest moves the mantissa up by at most the round bit. *)
Lemma round_nearest_even_bounds (mrs : shr_record) :
  shr_m mrs <= round_nearest_even (shr_m mrs) (loc_of_shr_record mrs)
            <= shr_m mrs + (if shr_r mrs then 1 else 0).
Proof.
  destruct mrs as [m [] []]; cbn; try destruct (Z.even m); lia.
Qed.

(** Shifting by [n] places and rounding to nearest adds at most half a
    unit of the last place kept. *)
Lemma shr_round_bound (m e n : Z) :
  0 <= m ->
  let mrs := fst (shr (Build_shr_record m false false) e n) in
  let mr := round_nearest_even (shr_m mrs) (loc_of_shr_record mrs) in
  0 <= mr /\ mr * 2 ^ Z.max 0 n <= m + 2 ^ Z.max 0 n / 2.
Proof.
  intros Hm mrs mr.
  destruct (shr_spec m e n Hm) as (_ & Hsm & Hsr & Hid).
  pose proof (round_nearest_even_bounds mrs) as [Hlo Hhi].
  fold mrs in Hsm, Hsr, Hid. fold mr in Hlo, Hhi.
  destruct (Z_lt_le_dec 0 n) as [Hn|Hn].
  - rewrite Z.max_r in * by lia. specialize (Hsr Hn).
    pose proof (pow2_pos (n - 1) ltac:(lia)) as Hh.
    assert (Hpow : 2 ^ n = 2 ^ (n - 1) * 2).
    { replace n with ((n - 1) + 1) at 1 by lia.
      rewrite Z.pow_add_r by lia. reflexivity. }
    assert (Hhalf : 2 ^ n / 2 = 2 ^ (n - 1)) by (rewrite Hpow; apply Z.div_mul; lia).
    assert (Hdiv : m / 2 ^ n = m / 2 ^ (n - 1) / 2).
    { rewrite Hpow, Z.div_div by lia. reflexivity. }
    pose proof (Z.mul_div_le m (2 ^ (n - 1)) Hh) as Hle.
    pose proof (Z.div_pos m (2 ^ (n - 1)) Hm Hh) as Hq.
    rewrite Hsm, Hdiv in Hlo, Hhi. rewrite Hhalf, Hpow.
    set (a := m / 2 ^ (n - 1)) in *.
    pose proof (Z.div_mod a 2 ltac:(lia)) as Ha.
    pose proof (Z.mod_pos_bound a 2 ltac:(lia)) as Hb.
    pose proof (Z.div_pos a 2 Hq ltac:(lia)) as Hq2.
    split; [lia|].
    rewrite Hsr, Zodd_mod in Hhi.
    destruct (Z.eqb_spec (a mod 2) 1); nia.
  - rewrite Z.max_l in * by lia.
    subst mr. rewrite (Hid Hn) in *. cbn in *.
    change (2 ^ 0) with 1. change (1 / 2) with 0. lia.
Qed.

(** The value that [binary_round_aux] returns for the exact product
    [X * 2^E]: its mantissa [m''] and exponent [E + S] are bounded by the
    product plus half of the first shift. *)
Lemma binary_round_aux_bound (X E : Z) :
  0 < X ->
  exists m'' S : Z,
    0 <= m'' /\ 0 <= S /\
    m'' * 2 ^ S <= X + 2 ^ Z.max 0 (fexp 53 1024 (Zdigits2 X + E) - E) / 2 /\
    binary_round_aux 53 1024 false X E loc_Exact =
      match m'' with
      | Z0 => S754_zero false
      | Zpos p =>
          if E + S <=? 1024 - 53 then S754_finite false p (E + S)
          else S754_infinity false
      | Zneg _ => S754_nan
      end.
Proof.
  intros HX. unfold binary_round_aux, shr_fexp. cbn [shr_record_of_loc].
  set (n1 := fexp 53 1024 (Zdigits2 X + E) - E).
  destruct (shr_spec X E n1 ltac:(lia)) as (He1 & _ & _ & _).
  destruct (shr_round_bound X E n1 ltac:(lia)) as [Hr0 Hr].
  destruct (shr (Build_shr_record X false false) E n1) as [mrs' e'] eqn:E1.
  cbn [fst snd] in *.
  set (mr := round_nearest_even (shr_m mrs') (loc_of_shr_record mrs')) in *.
  set (n2 := fexp 53 1024 (Zdigits2 mr + e') - e').
  destruct (shr_spec mr e' n2 Hr0) as (He2 & Hm2 & _ & _).
  destruct (shr (Build_shr_record mr false false) e' n2) as [mrs'' e''] eqn:E2.
  cbn [fst snd] in *.
  exists (shr_m mrs''), (Z.max 0 n1 + Z.max 0 n2).
  pose proof (pow2_pos (Z.max 0 n1) ltac:(lia)) as Hp1.
  pose proof (pow2_pos (Z.max 0 n2) ltac:(lia)) as Hp2.
  pose proof (Z.mul_div_le mr (2 ^ Z.max 0 n2) Hp2) as Hle.
  pose proof (Z.div_pos mr (2 ^ Z.max 0 n2) Hr0 Hp2) as Hq.
  split; [rewrite Hm2; exact Hq|]. split; [lia|]. split.
  - rewrite Hm2, Z.pow_add_r by lia. nia.
  - subst e'' e'. rewrite Z.add_assoc. reflexivity.
Qed.

Lemma print_as_integers_spec (count : nat) (q0 q : Z) :
  print_as_integers count q0 = true ->
  q0 <= q < q0 + Z.of_nat count -> prints_as_integer q = true.
Proof.
  revert q0. induction count as [|count IH]; intros q0 Hall Hq; [lia|].
  cbn [print_as_integers] in Hall. apply andb_true_iff in Hall as [H1 H2].
  destruct (Z.eq_dec q q0) as [->|Hne]; [exact H1|].
  apply (IH (q0 + 1)); [exact H2|lia].
Qed.

(** Every integer from 1 to 9999 is a Number that prints as its decimal
    digits. *)
Lemma small_integers_print : print_as_integers (Z.to_nat 9999) 1 = true.
Proof. vm_compute. reflexivity. Qed.

Lemma small_integer_prints (q : Z) :
  0 < q < 10000 ->
  integer_of (Num_of_Z q) = Some q /\ Number_toString (Num_of_Z q) = decimal q.
Proof.
  intros Hq.
  pose proof (print_as_integers_spec _ 1 q small_integers_print ltac:(lia)) as Hall.
  unfold prints_as_integer in Hall.
  apply andb_true_iff in Hall as [H1 H2].
  destruct (integer_of (Num_of_Z q)) as [z|]; [|discriminate].
  apply Z.eqb_eq in H1. apply String.eqb_eq in H2. by subst z.
Qed.

(** [<] on two positive finite values: by exponent, then by mantissa. *)
Lemma lt_finite (m1 m2 : positive) (e1 e2 : Z) :
  lt (S754_finite false m1 e1) (S754_finite false m2 e2) = true ->
  e1 < e2 \/ e1 = e2 /\ Z.pos m1 < Z.pos m2.
Proof.
  unfold lt, SFltb. cbn [SFcompare].
  destruct (Z.compare_spec e1 e2) as [->|Hlt|Hgt]; [|by left|discriminate].
  change (Pos.compare_cont Eq m1 m2) with (Pos.compare m1 m2).
  destruct (Pos.compare_spec m1 m2); try discriminate.
  intros _. right. split; [reflexivity|lia].
Qed.

(** A value below 1 has an exponent of at most -53. *)
Lemma below_one_exponent (m : positive) (e : Z) :
  valid_binary 53 1024 (S754_finite false m e) = true ->
  lt (S754_finite false m e) one = true ->
  -1074 <= e <= -53 /\ Z.pos m < 2 ^ 53.
Proof.
  intros Hv Hlt. apply valid_finite in Hv as (He & Hm & Hnorm).
  unfold one in Hlt. apply lt_finite in Hlt as [Hlt|[-> Hlt]]; [lia|].
  specialize (Hnorm ltac:(lia)).
  change (2 ^ 52) with 4503599627370496 in Hnorm. lia.
Qed.

(** The number of binary digits of a value below 2^n is at most n. *)
Lemma digits2_pos_le (x : positive) (n : Z) :
  0 <= n -> Z.pos x < 2 ^ n -> Z.pos (digits2_pos x) <= n.
Proof.
  intros Hn Hx. pose proof (digits2_pos_bounds x) as [Hlo _].
  assert (2 ^ (Z.pos (digits2_pos x) - 1) < 2 ^ n) as Hlt by lia.
  apply Z.pow_lt_mono_r_iff in Hlt; lia.
Qed.

(** [Math.floor(r * K)] for a draw [r] in [0, 1) and an integer constant
    [K = Kz] that is not a power of two: an integer from 0 to [Kz - 1],
    printed as its decimal digits. *)
Lemma floor_mul_unit_draw (r : number) (mK : positive) (eK Kz : Z) :
  unit_draw r ->
  2 ^ 52 < Z.pos mK < 2 ^ 53 ->
  -52 <= eK <= 0 ->
  Z.pos mK = Kz * 2 ^ (- eK) ->
  Kz <= 10000 ->
  exists n : Z,
    0 <= n < Kz /\
    integer_of (Math_floor (mul r (S754_finite false mK eK))) = Some n /\
    Number_toString (Math_floor (mul r (S754_finite false mK eK))) = decimal n.
Proof.
  intros (Hv & H0 & H1) HmK HeK HKz HK.
  pose proof (pow2_pos (- eK) ltac:(lia)) as HpK.
  assert (HKpos : 0 < Kz) by nia.
  destruct r as [s|[]| |[] m e]; try discriminate.
  - exists 0. split; [lia|]. destruct s; split; reflexivity.
  - destruct (below_one_exponent m e Hv H1) as [He Hm].
    unfold mul, SFmul. cbn [xorb].
    destruct (binary_round_aux_bound (Z.pos (m * mK)) (e + eK) ltac:(lia))
      as (m'' & S & Hm'' & HS & Hbound & ->).
    (* the first shift is by at most 53 places *)
    assert (Hshift : 2 ^ Z.max 0 (fexp 53 1024 (Zdigits2 (Z.pos (m * mK)) + (e + eK))
                                  - (e + eK)) / 2 <= 2 ^ 52).
    { assert (Hd : Z.pos (digits2_pos (m * mK)) <= 106).
      { apply digits2_pos_le; [lia|]. rewrite Pos2Z.inj_mul.
        change (2 ^ 106) with (2 ^ 53 * 2 ^ 53). nia. }
      unfold fexp, emin. cbn [Zdigits2].
      apply Z.div_le_upper_bound; [lia|].
      change (2 * 2 ^ 52) with (2 ^ 53). apply Z.pow_le_mono_r; lia. }
    (* the rounded product stays below K *)
    assert (Hpe : 2 ^ 53 <= 2 ^ (- e)) by (apply Z.pow_le_mono_r; lia).
    assert (Hlt : m'' * 2 ^ S < Kz * 2 ^ (- (e + eK))).
    { replace (- (e + eK)) with (- eK + - e) by lia.
      rewrite Z.pow_add_r, Z.mul_assoc, <- HKz by lia.
      rewrite Pos2Z.inj_mul in Hbound, Hshift.
      assert ((Z.pos m + 1) * Z.pos mK <= 2 ^ 53 * Z.pos mK)
        by (apply Z.mul_le_mono_nonneg_r; lia).
      assert (2 ^ 53 * Z.pos mK <= 2 ^ (- e) * Z.pos mK)
        by (apply Z.mul_le_mono_nonneg_r; lia).
      change (2 ^ 52) with 4503599627370496 in *. lia. }
    pose proof (pow2_pos S HS) as HpS.
    pose proof (pow2_pos (- (e + eK)) ltac:(lia)) as HpE.
    destruct m'' as [|p|p]; [| |lia].
    + exists 0. split; [lia|]. split; reflexivity.
    + (* the exponent is small: no overflow *)
      assert (HSlt : S < 14 + - (e + eK)).
      { apply (Z.pow_lt_mono_r_iff 2); [lia|lia|].
        rewrite Z.pow_add_r by lia. change (2 ^ 14) with 16384. nia. }
      destruct (Z.leb_spec (e + eK + S) (1024 - 53)) as [_|]; [|lia].
      cbn [Math_floor integer_of Number_toString cond_Zopp].
      destruct (Z.leb_spec 0 (e + eK + S)) as [Hge|Hneg].
      * (* integral already *)
        cbn [integer_of Number_toString cond_Zopp].
        destruct (Z.leb_spec 0 (e + eK + S)) as [_|]; [|lia].
        exists (Z.pos p * 2 ^ (e + eK + S)).
        pose proof (pow2_pos (e + eK + S) Hge) as Hpe''.
        split; [|split; reflexivity].
        split; [lia|].
        replace S with ((e + eK + S) + - (e + eK)) in Hlt at 1 by lia.
        rewrite Z.pow_add_r, Z.mul_assoc in Hlt by lia.
        apply Z.mul_lt_mono_pos_r in Hlt; [exact Hlt|exact HpE].
      * (* a fraction: its integer part *)
        pose proof (pow2_pos (- (e + eK + S)) ltac:(lia)) as Hpf.
        assert (Hq : Z.pos p / 2 ^ (- (e + eK + S)) < Kz).
        { apply Z.div_lt_upper_bound; [exact Hpf|].
          replace (- (e + eK)) with (S + - (e + eK + S)) in Hlt by lia.
          rewrite Z.pow_add_r in Hlt by lia. nia. }
        pose proof (Z.div_pos (Z.pos p) (2 ^ (- (e + eK + S))) ltac:(lia) Hpf) as Hq0.
        destruct (Z.eqb_spec (Z.pos p / 2 ^ (- (e + eK + S))) 0) as [Hz|Hnz].
        -- exists 0. split; [lia|]. split; reflexivity.
        -- exists (Z.pos p / 2 ^ (- (e + eK + S))). split; [lia|].
           apply small_integer_prints. lia.
Qed.

End Rounding.

(* ================================================================== *)
(** ** Products and quotients of integers on Numbers                   *)
(* ================================================================== *)

Section SourceCoordinates.

(** [binary_round_aux] is its two stages, one after the other. *)
Lemma binary_round_aux_stages (X E : Z) (l : location) :
  binary_round_aux 53 1024 false X E l =
    second_stage (first_stage X E l) (snd (shr_fexp 53 1024 X E l)).
Proof.
  unfold binary_round_aux, second_stage, first_stage.
  destruct (shr_fexp 53 1024 X E l) as [mrs' e']. reflexivity.
Qed.

(** The number of binary digits of a value between 2^(n-1) and 2^n. *)
Lemma digits2_pos_eq (m : positive) (n : Z) :
  2 ^ (n - 1) <= Z.pos m < 2 ^ n -> Z.pos (digits2_pos m) = n.
Proof.
  intros [Hlo Hhi].
  pose proof (digits2_pos_bounds m) as [Hlo' Hhi'].
  assert (Hn : 0 < n).
  { destruct (Z_lt_le_dec 0 n) as [|Hle]; [assumption|].
    assert (2 ^ n <= 1); [|lia].
    destruct (Z.eq_dec n 0) as [->|]; [simpl; lia|].
    rewrite Z.pow_neg_r by lia. lia. }
  assert (Z.pos (digits2_pos m) - 1 < n) by (apply (Z.pow_lt_mono_r_iff 2); lia).
  assert (n - 1 < Z.pos (digits2_pos m)) by (apply (Z.pow_lt_mono_r_iff 2); lia).
  lia.
Qed.

(** The second stage leaves a mantissa of 53 digits as it is and halves
    2^53, which the first stage reaches by rounding up. *)
Lemma second_stage_normal (mr e1 : Z) :
  2 ^ 52 <= mr <= 2 ^ 53 -> -1074 <= e1 <= 970 ->
  exists (p : positive) (e'' : Z),
    second_stage mr e1 = S754_finite false p e'' /\
    2 ^ 52 <= Z.pos p < 2 ^ 53 /\
    (Z.pos p = mr /\ e'' = e1 \/ mr = 2 ^ 53 /\ Z.pos p = 2 ^ 52 /\ e'' = e1 + 1).
Proof.
  intros Hmr He. unfold second_stage, shr_fexp. cbn [shr_record_of_loc].
  destruct mr as [|pm|pm]; try (change (2 ^ 52) with 4503599627370496 in Hmr; lia).
  cbn [Zdigits2].
  set (n2 := fexp 53 1024 (Z.pos (digits2_pos pm) + e1) - e1).
  destruct (shr_spec (Z.pos pm) e1 n2 ltac:(lia)) as (He2 & Hm2 & _ & _).
  destruct (shr (Build_shr_record (Z.pos pm) false false) e1 n2) as [mrs'' e''].
  cbn [fst snd] in He2, Hm2. rewrite Hm2. subst e''.
  destruct (Z_lt_le_dec (Z.pos pm) (2 ^ 53)) as [Hlt|Hge].
  - assert (Hd : Z.pos (digits2_pos pm) = 53) by (apply digits2_pos_eq; simpl Z.sub; lia).
    assert (Hn : n2 = 0) by (unfold n2, fexp, emin; rewrite Hd; lia).
    rewrite Hn. change (2 ^ Z.max 0 0) with 1. rewrite Z.div_1_r, Z.add_0_r.
    destruct (Z.leb_spec e1 (1024 - 53)); [|lia].
    exists pm, e1. split; [reflexivity|]. split; [lia|]. left. split; reflexivity.
  - assert (Heq : Z.pos pm = 2 ^ 53) by lia.
    assert (Hd : Z.pos (digits2_pos pm) = 54).
    { apply digits2_pos_eq. rewrite Heq. change (54 - 1) with 53. split; [lia|].
      apply Z.pow_lt_mono_r; lia. }
    assert (Hn : n2 = 1) by (unfold n2, fexp, emin; rewrite Hd; lia).
    rewrite Hn, Heq. change (2 ^ 53 / 2 ^ Z.max 0 1) with (2 ^ 52).
    change (Z.max 0 1) with 1.
    change (2 ^ 52) with 4503599627370496 at 1.
    destruct (Z.leb_spec (e1 + 1) (1024 - 53)); [|lia].
    exists 4503599627370496%positive, (e1 + 1). split; [reflexivity|].
    split; [change (2 ^ 52) with 4503599627370496; change (2 ^ 53) with 9007199254740992; lia|].
    right. split; [reflexivity|]. split; reflexivity.
Qed.

(** The first stage on an exact value of at least 53 digits, a product or
    an integer: the shift that leaves 53 digits, and the mantissa within
    half a unit of the value. *)
Lemma first_stage_exact (X E : Z) :
  2 ^ 52 <= X -> -1074 <= Zdigits2 X + E - 53 ->
  let n1 := Zdigits2 X - 53 in
  0 <= n1 /\
  snd (shr_fexp 53 1024 X E loc_Exact) = E + n1 /\
  2 ^ 52 * 2 ^ n1 <= X < 2 ^ 53 * 2 ^ n1 /\
  X < (first_stage X E loc_Exact + 1) * 2 ^ n1 /\
  2 * first_stage X E loc_Exact * 2 ^ n1 <= 2 * X + 2 ^ n1.
Proof.
  intros HX HE n1.
  destruct X as [|px|px]; try (change (2 ^ 52) with 4503599627370496 in HX; lia).
  cbn [Zdigits2] in *.
  pose proof (digits2_pos_bounds px) as [Hlo Hhi].
  assert (Hd : 53 <= Z.pos (digits2_pos px)).
  { destruct (Z_lt_le_dec (Z.pos (digits2_pos px)) 53) as [Hlt|]; [|assumption].
    assert (2 ^ Z.pos (digits2_pos px) <= 2 ^ 52) by (apply Z.pow_le_mono_r; lia). lia. }
  assert (Hn : 0 <= n1) by (unfold n1; lia).
  assert (Hfexp : fexp 53 1024 (Z.pos (digits2_pos px) + E) - E = n1)
    by (unfold fexp, emin, n1; lia).
  unfold first_stage, shr_fexp. cbn [shr_record_of_loc Zdigits2]. rewrite Hfexp.
  destruct (shr_spec (Z.pos px) E n1 ltac:(lia)) as (He1 & Hsm & Hsr & Hid).
  pose proof (round_nearest_even_bounds
                (fst (shr (Build_shr_record (Z.pos px) false false) E n1))) as [Hr1 Hr2].
  pose proof (shr_round_bound (Z.pos px) E n1 ltac:(lia)) as [_ Hub].
  cbn zeta in Hub. rewrite Z.max_r in * by lia.
  pose proof (pow2_pos n1 Hn) as Hp.
  assert (Hpow : 2 ^ Z.pos (digits2_pos px) = 2 ^ 53 * 2 ^ n1).
  { rewrite <- Z.pow_add_r by lia. f_equal. unfold n1. lia. }
  assert (Hpow' : 2 ^ (Z.pos (digits2_pos px) - 1) = 2 ^ 52 * 2 ^ n1).
  { rewrite <- Z.pow_add_r by lia. f_equal. unfold n1. lia. }
  split; [exact Hn|]. split; [exact He1|]. split; [lia|].
  set (mr := round_nearest_even _ _) in *.
  rewrite Hsm in Hr1.
  pose proof (Z.div_mod (Z.pos px) (2 ^ n1) ltac:(lia)) as Hdm.
  pose proof (Z.mod_pos_bound (Z.pos px) (2 ^ n1) Hp) as Hmod.
  pose proof (Z.mul_div_le (2 ^ n1) 2 ltac:(lia)) as Hhalf.
  split; nia.
Qed.

(** The Number of a positive integer below 2^53: a mantissa of 53 digits
    and an exponent that is not positive. *)
Lemma Num_of_Z_finite (z : Z) :
  0 < z < 2 ^ 53 ->
  exists (m : positive) (s : Z),
    Num_of_Z z = S754_finite false m (- s) /\
    0 <= s <= 52 /\ Z.pos m = z * 2 ^ s /\ 2 ^ 52 <= Z.pos m < 2 ^ 53.
Proof.
  intros Hz. destruct z as [|pz|pz]; try lia.
  unfold Num_of_Z, binary_normalize, binary_round, shl_align.
  pose proof (digits2_pos_bounds pz) as [Hlo Hhi].
  assert (Hd : Z.pos (digits2_pos pz) <= 53) by (apply digits2_pos_le; lia).
  set (d := Z.pos (digits2_pos pz)) in *.
  assert (Hfexp : fexp 53 1024 (d + 0) - 0 = d - 53) by (unfold fexp, emin; lia).
  rewrite Hfexp.
  assert (Hfexp' : fexp 53 1024 (d + 0) = d - 53) by (unfold fexp, emin; lia).
  rewrite Hfexp'.
  assert (Hfin : forall (m : positive) (e : Z),
            2 ^ 52 <= Z.pos m < 2 ^ 53 -> -52 <= e <= 0 ->
            binary_round_aux 53 1024 false (Z.pos m) e loc_Exact = S754_finite false m e).
  { intros m e Hm He. rewrite binary_round_aux_stages.
    assert (Hdm : Zdigits2 (Z.pos m) = 53) by (apply digits2_pos_eq; simpl Z.sub; lia).
    destruct (first_stage_exact (Z.pos m) e ltac:(lia) ltac:(rewrite Hdm; lia))
      as (_ & He1 & _ & Hl & Hu).
    rewrite Hdm in *. change (53 - 53) with 0 in *. change (2 ^ 0) with 1 in *.
    rewrite He1, Z.add_0_r.
    assert (Hr : first_stage (Z.pos m) e loc_Exact = Z.pos m) by lia.
    rewrite Hr.
    destruct (second_stage_normal (Z.pos m) e ltac:(lia) ltac:(lia))
      as (p & e'' & -> & _ & [[Hp ->]|[Hp _]]); [|lia].
    by injection Hp as ->. }
  destruct (d - 53) as [|k|k] eqn:Ek.
  - assert (d = 53) as Hd53 by lia. rewrite Hd53 in Hlo.
    change (53 - 1) with 52 in Hlo.
    exists pz, 0. rewrite Hfin by lia. change (2 ^ 0) with 1.
    split; [reflexivity|]. lia.
  - lia.
  - change (Pos.iter xO pz k) with (shift_pos k pz).
    assert (Hv : Z.pos (shift_pos k pz) = Z.pos pz * 2 ^ Z.pos k).
    { rewrite shift_pos_correct, Z.pow_pos_fold. lia. }
    assert (Hk : Z.pos k = 53 - d) by lia.
    assert (Hb : 2 ^ 52 <= Z.pos (shift_pos k pz) < 2 ^ 53).
    { assert (H52 : 2 ^ 52 = 2 ^ (d - 1) * 2 ^ (53 - d))
        by (rewrite <- Z.pow_add_r by lia; f_equal; lia).
      assert (H53 : 2 ^ 53 = 2 ^ d * 2 ^ (53 - d))
        by (rewrite <- Z.pow_add_r by lia; f_equal; lia).
      pose proof (pow2_pos (53 - d) ltac:(lia)) as Hp.
      rewrite Hv, Hk, H52, H53. split.
      - apply Z.mul_le_mono_nonneg_r; lia.
      - apply Z.mul_lt_mono_pos_r; lia. }
    exists (shift_pos k pz), (Z.pos k). rewrite Hfin by lia.
    split; [reflexivity|]. split; [lia|]. split; [exact Hv|exact Hb].
Qed.

(** The integer that the Number of a small integer denotes. *)
Lemma integer_of_Num_of_Z (z : Z) :
  0 <= z < 2 ^ 53 -> integer_of (Num_of_Z z) = Some z.
Proof.
  intros Hz. destruct (Z.eq_dec z 0) as [->|Hnz]; [reflexivity|].
  destruct (Num_of_Z_finite z ltac:(lia)) as (m & s & -> & Hs & Hm & _).
  cbn [integer_of cond_Zopp].
  pose proof (pow2_pos s ltac:(lia)) as Hp.
  destruct (Z.leb_spec 0 (- s)).
  - assert (s = 0) as -> by lia. change (- 0) with 0. change (2 ^ 0) with 1 in *.
    f_equal. lia.
  - replace (- - s) with s by lia. rewrite Hm, Z.mod_mul, Z.div_mul by lia.
    reflexivity.
Qed.

(** The product of two normal values. *)
Lemma mul_finite (mx my : positive) (sx sy : Z) :
  2 ^ 52 <= Z.pos mx < 2 ^ 53 -> 2 ^ 52 <= Z.pos my < 2 ^ 53 ->
  0 <= sx <= 52 -> 0 <= sy <= 52 ->
  exists (p : positive) (e'' mr n1 : Z),
    mul (S754_finite false mx (- sx)) (S754_finite false my (- sy))
      = S754_finite false p e'' /\
    2 ^ 52 <= Z.pos p < 2 ^ 53 /\ 52 <= n1 <= 53 /\
    2 ^ 52 * 2 ^ n1 <= Z.pos mx * Z.pos my < 2 ^ 53 * 2 ^ n1 /\
    Z.pos mx * Z.pos my < (mr + 1) * 2 ^ n1 /\
    2 * mr * 2 ^ n1 <= 2 * (Z.pos mx * Z.pos my) + 2 ^ n1 /\
    (Z.pos p = mr /\ e'' = - sx + - sy + n1 \/
     mr = 2 ^ 53 /\ Z.pos p = 2 ^ 52 /\ e'' = - sx + - sy + n1 + 1).
Proof.
  intros Hx Hy Hsx Hsy. unfold mul, SFmul. cbn [xorb].
  rewrite binary_round_aux_stages, Pos2Z.inj_mul.
  set (X := Z.pos mx * Z.pos my).
  assert (HX : 2 ^ 104 <= X < 2 ^ 106).
  { unfold X. change (2 ^ 104) with (2 ^ 52 * 2 ^ 52).
    change (2 ^ 106) with (2 ^ 53 * 2 ^ 53). nia. }
  assert (Hd : 105 <= Zdigits2 X <= 106).
  { unfold X. rewrite <- Pos2Z.inj_mul. cbn [Zdigits2]. split.
    - pose proof (digits2_pos_bounds (mx * my)) as [_ Hhi].
      rewrite Pos2Z.inj_mul in Hhi. fold X in Hhi.
      assert (Hlt : 2 ^ 104 < 2 ^ Z.pos (digits2_pos (mx * my))) by lia.
      apply Z.pow_lt_mono_r_iff in Hlt; lia.
    - apply digits2_pos_le; [lia|]. rewrite Pos2Z.inj_mul. apply HX. }
  assert (H52 : 2 ^ 52 <= X).
  { eapply Z.le_trans; [|apply HX]. apply Z.pow_le_mono_r; lia. }
  destruct (first_stage_exact X (- sx + - sy) H52 ltac:(lia)) as (Hn & He1 & HXn & Hl & Hu).
  set (n1 := Zdigits2 X - 53) in *. set (mr := first_stage X (- sx + - sy) loc_Exact) in *.
  rewrite He1.
  pose proof (pow2_pos n1 Hn) as Hp. set (c := 2 ^ n1) in *.
  assert (Hmr : 2 ^ 52 <= mr <= 2 ^ 53).
  { change (2 ^ 52) with 4503599627370496 in *.
    change (2 ^ 53) with 9007199254740992 in *. split; nia. }
  destruct (second_stage_normal mr (- sx + - sy + n1) Hmr ltac:(unfold n1; lia))
    as (p & e'' & Hfin & Hpb & Hcase).
  exists p, e'', mr, n1. fold c.
  split; [exact Hfin|]. split; [exact Hpb|]. split; [unfold n1; lia|].
  repeat (split; [first [assumption|lia]|]). exact Hcase.
Qed.

(** Positions of powers of two. *)
Lemma pow2_lt_le (a b : Z) : 0 <= a -> 0 <= b -> 2 ^ a < 2 * 2 ^ b -> a <= b.
Proof.
  intros Ha Hb H.
  assert (2 ^ a < 2 ^ (b + 1)) as Hlt by (rewrite Z.pow_add_r by lia; lia).
  apply Z.pow_lt_mono_r_iff in Hlt; lia.
Qed.

(** The product of two integers is exact when it is below 2^53. *)
Lemma mul_exact (x y : Z) :
  0 < x -> 0 < y -> x * y < 2 ^ 53 ->
  mul (Num_of_Z x) (Num_of_Z y) = Num_of_Z (x * y).
Proof.
  intros Hx Hy HP.
  assert (Hx' : x < 2 ^ 53) by nia. assert (Hy' : y < 2 ^ 53) by nia.
  destruct (Num_of_Z_finite x ltac:(lia)) as (mx & sx & -> & Hsx & Hmx & Hbx).
  destruct (Num_of_Z_finite y ltac:(lia)) as (my & sy & -> & Hsy & Hmy & Hby).
  destruct (Num_of_Z_finite (x * y) ltac:(nia)) as (mP & sP & -> & HsP & HmP & HbP).
  destruct (mul_finite mx my sx sy Hbx Hby Hsx Hsy)
    as (p & e'' & mr & n1 & -> & Hpb & Hn' & HXn & Hl & Hu & Hcase).
  assert (Hn : 0 <= n1) by lia.
  pose proof (pow2_pos sx ltac:(lia)) as Hpx.
  pose proof (pow2_pos sy ltac:(lia)) as Hpy.
  pose proof (pow2_pos sP ltac:(lia)) as HpP.
  pose proof (pow2_pos n1 Hn) as Hpn.
  assert (HX : Z.pos mx * Z.pos my = x * y * 2 ^ (sx + sy)).
  { rewrite Hmx, Hmy, Z.pow_add_r by lia. ring. }
  (* the shift is the difference of the exponents *)
  assert (HS : sP <= sx + sy).
  { assert (H1 : 2 ^ 52 * 2 ^ 52 <= x * y * 2 ^ (sx + sy)).
    { rewrite <- HX. apply Z.mul_le_mono_nonneg; lia. }
    assert (H2 : x * y * 2 ^ sP < x * y * 2 ^ (sx + sy)).
    { rewrite <- HmP. eapply Z.lt_le_trans; [|exact H1].
      eapply Z.lt_le_trans; [apply HbP|].
      change (2 ^ 53) with 9007199254740992. change (2 ^ 52) with 4503599627370496.
      lia. }
    apply Z.mul_lt_mono_pos_l in H2; [|lia].
    apply Z.pow_lt_mono_r_iff in H2; lia. }
  assert (HX' : Z.pos mx * Z.pos my = Z.pos mP * 2 ^ (sx + sy - sP)).
  { rewrite HX, HmP. replace (sx + sy) with (sP + (sx + sy - sP)) at 1 by lia.
    rewrite Z.pow_add_r by lia. ring. }
  pose proof (pow2_pos (sx + sy - sP) ltac:(lia)) as HpS.
  assert (Hn1 : n1 = sx + sy - sP).
  { rewrite HX' in HXn. destruct HXn as [HXlo HXhi].
    assert (H1 : Z.pos mP * 2 ^ (sx + sy - sP) < 2 ^ 53 * 2 ^ (sx + sy - sP))
      by (apply Z.mul_lt_mono_pos_r; lia).
    assert (H2 : 2 ^ 52 * 2 ^ (sx + sy - sP) <= Z.pos mP * 2 ^ (sx + sy - sP))
      by (apply Z.mul_le_mono_nonneg_r; lia).
    change (2 ^ 53) with (2 ^ 52 * 2) in H1, HXhi.
    assert (H3 : 2 ^ 52 * 2 ^ n1 < 2 ^ 52 * (2 * 2 ^ (sx + sy - sP))) by lia.
    assert (H4 : 2 ^ 52 * 2 ^ (sx + sy - sP) < 2 ^ 52 * (2 * 2 ^ n1)) by lia.
    apply Z.mul_lt_mono_pos_l in H3; [|lia].
    apply Z.mul_lt_mono_pos_l in H4; [|lia].
    apply Z.le_antisymm; apply pow2_lt_le; lia. }
  rewrite HX', <- Hn1 in Hl, Hu.
  assert (Hmr : mr = Z.pos mP).
  { apply Z.mul_lt_mono_pos_r in Hl; [|lia].
    assert (Hu' : 2 * mr * 2 ^ n1 <= (2 * Z.pos mP + 1) * 2 ^ n1) by lia.
    apply Z.mul_le_mono_pos_r in Hu'; lia. }
  destruct Hcase as [[Hp ->]|[Hp _]]; [|lia].
  rewrite Hmr in Hp. injection Hp as ->. f_equal. lia.
Qed.

(** The quotient of two normal mantissas as [SFdiv] starts from it: the
    dividend shifted by 53 places, divided with remainder. *)
Lemma SFdiv_core_binary_normal (mA mB : positive) (ea eb : Z) :
  2 ^ 52 <= Z.pos mA < 2 ^ 53 -> 2 ^ 52 <= Z.pos mB < 2 ^ 53 ->
  -1000 <= ea - eb ->
  SFdiv_core_binary 53 1024 (Z.pos mA) ea (Z.pos mB) eb =
    (Z.pos mA * 2 ^ 53 / Z.pos mB, ea - eb - 53,
     new_location (Z.pos mB) ((Z.pos mA * 2 ^ 53) mod Z.pos mB)).
Proof.
  intros HA HB He. unfold SFdiv_core_binary. cbn [Zdigits2].
  rewrite (digits2_pos_eq mA 53), (digits2_pos_eq mB 53) by (simpl Z.sub; lia).
  replace (53 + ea - (53 + eb)) with (ea - eb) by lia.
  unfold fexp, emin. rewrite Z.max_l, Z.min_l by lia.
  replace (ea - eb - (ea - eb - 53)) with 53 by lia.
  cbv beta iota zeta.
  rewrite Z.shiftl_mul_pow2 by lia.
  unfold Z.div, Z.modulo. destruct (Z.div_eucl _ _). reflexivity.
Qed.

(** A location and its record. *)
Lemma shr_record_of_loc_spec (m : Z) (l : location) :
  shr_m (shr_record_of_loc m l) = m /\
  loc_of_shr_record (shr_record_of_loc m l) = l.
Proof. destruct l as [|[]]; split; reflexivity. Qed.

(** Rounding a quotient to nearest by the position of the remainder. *)
Lemma new_location_round (B rem Q : Z) :
  0 <= rem < B ->
  Q <= round_nearest_even Q (new_location B rem) <= Q + 1 /\
  2 * round_nearest_even Q (new_location B rem) * B <= 2 * (Q * B + rem) + B.
Proof.
  intros Hr. unfold new_location, new_location_even, new_location_odd.
  destruct (Z.even B); destruct (Z.eqb_spec rem 0); cbn [round_nearest_even]; try nia.
  - destruct (Z.compare_spec (2 * rem) B); cbn [round_nearest_even];
      try destruct (Z.even Q); nia.
  - destruct (Z.compare_spec (2 * rem + 1) B); cbn [round_nearest_even]; nia.
Qed.

(** First stage of the rounding of a quotient of 53 or 54 digits. *)
Lemma first_stage_quotient (Q B rem e' : Z) :
  2 ^ 52 <= Q < 2 ^ 54 -> 0 <= rem < B -> -1074 <= e' ->
  exists n : Z,
    (n = 0 \/ n = 1) /\
    snd (shr_fexp 53 1024 Q e' (new_location B rem)) = e' + n /\
    2 ^ 52 * 2 ^ n <= Q < 2 ^ 53 * 2 ^ n /\
    Q < (first_stage Q e' (new_location B rem) + 1) * 2 ^ n /\
    2 * first_stage Q e' (new_location B rem) * 2 ^ n * B <= 2 * (Q * B + rem) + 2 ^ n * B.
Proof.
  intros HQ Hr He.
  destruct Q as [|q|q]; try (change (2 ^ 52) with 4503599627370496 in HQ; lia).
  unfold first_stage, shr_fexp. cbn [Zdigits2].
  destruct (Z_lt_le_dec (Z.pos q) (2 ^ 53)) as [Hlt|Hge].
  - exists 0.
    rewrite (digits2_pos_eq q 53) by (simpl Z.sub; lia).
    replace (fexp 53 1024 (53 + e') - e') with 0 by (unfold fexp, emin; lia).
    cbn [shr fst snd].
    destruct (shr_record_of_loc_spec (Z.pos q) (new_location B rem)) as [-> ->].
    destruct (new_location_round B rem (Z.pos q) Hr) as [H1 H2].
    change (2 ^ 0) with 1.
    split; [by left|]. split; [lia|]. split; [lia|]. split; lia.
  - exists 1.
    rewrite (digits2_pos_eq q 54)
      by (change (54 - 1) with 53; split; [exact Hge|apply HQ]).
    replace (fexp 53 1024 (54 + e') - e') with 1 by (unfold fexp, emin; lia).
    cbn [shr fst snd SpecFloat.iter_pos].
    set (mrs := shr_record_of_loc (Z.pos q) (new_location B rem)).
    assert (Hm : shr_m mrs = Z.pos q) by apply shr_record_of_loc_spec.
    destruct (shr_1_spec mrs ltac:(rewrite Hm; lia)) as [H1 H2].
    pose proof (round_nearest_even_bounds (shr_1 mrs)) as [Hlo Hhi].
    rewrite H1, H2, Hm in *. rewrite Zodd_mod in Hhi.
    set (mr := round_nearest_even _ _) in *.
    pose proof (Z.div_mod (Z.pos q) 2 ltac:(lia)) as Hdm.
    pose proof (Z.mod_pos_bound (Z.pos q) 2 ltac:(lia)) as Hmod.
    change (2 ^ 1) with 2. change (2 ^ 54) with (2 ^ 53 * 2) in HQ.
    change (2 ^ 53) with (2 ^ 52 * 2) in Hge.
    split; [by right|]. split; [reflexivity|]. split; [lia|].
    assert (H2mr : 2 * mr <= Z.pos q + 1 /\ Z.pos q < 2 * mr + 2).
    { destruct (Z.eqb_spec (Z.pos q mod 2) 1); lia. }
    split; [lia|]. nia.
Qed.

(** The quotient of two normal values. *)
Lemma div_finite (mA mB : positive) (ea eb : Z) :
  2 ^ 52 <= Z.pos mA < 2 ^ 53 -> 2 ^ 52 <= Z.pos mB < 2 ^ 53 ->
  -900 <= ea - eb <= 900 ->
  exists (p : positive) (e'' mr n : Z),
    div (S754_finite false mA ea) (S754_finite false mB eb) = S754_finite false p e'' /\
    2 ^ 52 <= Z.pos p < 2 ^ 53 /\ (n = 0 \/ n = 1) /\
    2 ^ 52 * 2 ^ n * Z.pos mB <= Z.pos mA * 2 ^ 53 /\
    Z.pos mA * 2 ^ 53 < (mr + 1) * 2 ^ n * Z.pos mB /\
    2 * mr * 2 ^ n * Z.pos mB <= 2 * (Z.pos mA * 2 ^ 53) + 2 ^ n * Z.pos mB /\
    (Z.pos p = mr /\ e'' = ea - eb - 53 + n \/
     mr = 2 ^ 53 /\ Z.pos p = 2 ^ 52 /\ e'' = ea - eb - 53 + n + 1).
Proof.
  intros HA HB He. unfold div, SFdiv. cbn [xorb].
  rewrite SFdiv_core_binary_normal by (first [assumption|lia]).
  rewrite binary_round_aux_stages.
  set (m' := Z.pos mA * 2 ^ 53).
  pose proof (Z.div_mod m' (Z.pos mB) ltac:(lia)) as Hdm.
  pose proof (Z.mod_pos_bound m' (Z.pos mB) ltac:(lia)) as Hmod.
  set (Q := m' / Z.pos mB) in *. set (rem := m' mod Z.pos mB) in *.
  assert (HQ : 2 ^ 52 <= Q < 2 ^ 54).
  { split.
    - apply Z.div_le_lower_bound; [lia|]. unfold m'.
      apply (Z.le_trans _ (2 ^ 53 * 2 ^ 52)).
      + apply Z.mul_le_mono_nonneg_r; lia.
      + rewrite (Z.mul_comm (2 ^ 53)). apply Z.mul_le_mono_nonneg_r; lia.
    - apply Z.div_lt_upper_bound; [lia|]. unfold m'.
      change (2 ^ 54) with (2 * 2 ^ 53).
      assert (Z.pos mA * 2 ^ 53 < 2 * Z.pos mB * 2 ^ 53); [|lia].
      apply Z.mul_lt_mono_pos_r; [lia|].
      change (2 ^ 53) with (2 * 2 ^ 52) in HA. lia. }
  destruct (first_stage_quotient Q (Z.pos mB) rem (ea - eb - 53) HQ Hmod ltac:(lia))
    as (n & Hn & He1 & HQn & Hl & Hu).
  set (mr := first_stage Q (ea - eb - 53) (new_location (Z.pos mB) rem)) in *.
  rewrite He1.
  assert (Hpn : 0 < 2 ^ n) by (apply pow2_pos; lia).
  assert (H2n : 2 ^ n = 1 \/ 2 ^ n = 2) by (destruct Hn as [-> | ->]; [by left|by right]).
  set (c := 2 ^ n) in *.
  assert (HQB : Q * Z.pos mB <= m' < (Q + 1) * Z.pos mB) by lia.
  assert (Hmr : 2 ^ 52 <= mr <= 2 ^ 53).
  { split.
    - assert (H1 : 2 ^ 52 * c < (mr + 1) * c) by lia.
      apply Z.mul_lt_mono_pos_r in H1; lia.
    - assert (H1 : 2 * mr * c * Z.pos mB < (2 * 2 ^ 53 + 1) * c * Z.pos mB).
      { assert (m' < 2 ^ 53 * c * Z.pos mB).
        { eapply Z.lt_le_trans; [apply (proj2 HQB)|].
          apply Z.mul_le_mono_nonneg_r; lia. }
        lia. }
      apply Z.mul_lt_mono_pos_r in H1; [|lia].
      apply Z.mul_lt_mono_pos_r in H1; lia. }
  destruct (second_stage_normal mr (ea - eb - 53 + n) Hmr ltac:(lia))
    as (p & e'' & Hfin & Hpb & Hcase).
  exists p, e'', mr, n. fold c.
  split; [exact Hfin|]. split; [exact Hpb|]. split; [exact Hn|].
  split.
  { eapply Z.le_trans; [|apply (proj1 HQB)].
    apply Z.mul_le_mono_nonneg_r; lia. }
  split.
  { eapply Z.lt_le_trans; [apply (proj2 HQB)|].
    apply Z.mul_le_mono_nonneg_r; lia. }
  split; [|exact Hcase].
  rewrite Hdm. lia.
Qed.

(** The floor of a positive value by the integer it lies above. *)
Lemma integer_of_floor_finite (p : positive) (e q : Z) :
  e <= 0 -> 0 <= q < 2 ^ 53 ->
  q * 2 ^ (- e) <= Z.pos p < (q + 1) * 2 ^ (- e) ->
  integer_of (Math_floor (S754_finite false p e)) = Some q.
Proof.
  intros He Hq Hp. cbn [Math_floor].
  destruct (Z.leb_spec 0 e) as [Hge|Hlt].
  - assert (e = 0) as -> by lia. change (2 ^ (- 0)) with 1 in Hp.
    cbn [integer_of cond_Zopp]. change (0 <=? 0) with true. cbv iota.
    change (2 ^ 0) with 1. f_equal. lia.
  - pose proof (pow2_pos (- e) ltac:(lia)) as Hc.
    assert (Hdiv : Z.pos p / 2 ^ (- e) = q).
    { symmetry. apply (Z.div_unique_pos _ _ _ (Z.pos p - q * 2 ^ (- e))); lia. }
    rewrite Hdiv. destruct (Z.eqb_spec q 0) as [->|Hnz]; [reflexivity|].
    apply integer_of_Num_of_Z. lia.
Qed.

(** [Math.floor(a / b)] on the Numbers of two positive integers below
    2^53 is the Number of the integer quotient: the rounding of the
    quotient never reaches the next integer. *)
Lemma div_floor (a b : Z) :
  0 < a < 2 ^ 53 -> 0 < b < 2 ^ 53 ->
  integer_of (Math_floor (div (Num_of_Z a) (Num_of_Z b))) = Some (a / b).
Proof.
  intros Ha Hb.
  destruct (Num_of_Z_finite a Ha) as (mA & sa & -> & Hsa & HmA & HbA).
  destruct (Num_of_Z_finite b Hb) as (mB & sb & -> & Hsb & HmB & HbB).
  destruct (div_finite mA mB (- sa) (- sb) HbA HbB ltac:(lia))
    as (p & e'' & mr & n & -> & Hpb & Hn & F1 & F2 & F3 & Hcase).
  set (t := sa + 53 - sb - n).
  assert (Ht : 0 <= t) by (unfold t; lia).
  pose proof (pow2_pos t Ht) as HT.
  pose proof (pow2_pos (sa + 53) ltac:(lia)) as HK.
  assert (HmA' : Z.pos mA * 2 ^ 53 = a * 2 ^ (sa + 53)).
  { rewrite HmA, Z.pow_add_r by lia. ring. }
  assert (HcBT : 2 ^ n * Z.pos mB * 2 ^ t = b * 2 ^ (sa + 53)).
  { rewrite HmB. replace (sa + 53) with (sb + (n + t)) by (unfold t; lia).
    rewrite !Z.pow_add_r by lia. ring. }
  rewrite HmA' in F1, F2, F3.
  set (K := 2 ^ (sa + 53)) in *. set (T := 2 ^ t) in *. set (c := 2 ^ n) in *.
  set (B := Z.pos mB) in *.
  assert (F1' : 2 ^ 52 * b <= a * T).
  { apply (Z.mul_le_mono_pos_r _ _ K HK).
    replace (2 ^ 52 * b * K) with (2 ^ 52 * c * B * T)
      by (rewrite <- (Z.mul_assoc _ b K), <- HcBT; ring).
    replace (a * T * K) with (a * K * T) by ring.
    apply Z.mul_le_mono_nonneg_r; lia. }
  assert (F2' : a * T < (mr + 1) * b).
  { apply (Z.mul_lt_mono_pos_r K _ _ HK).
    replace ((mr + 1) * b * K) with ((mr + 1) * c * B * T)
      by (rewrite <- (Z.mul_assoc _ b K), <- HcBT; ring).
    replace (a * T * K) with (a * K * T) by ring.
    apply Z.mul_lt_mono_pos_r; lia. }
  assert (F3' : 2 * mr * b <= 2 * a * T + b).
  { apply (Z.mul_le_mono_pos_r _ _ K HK).
    replace (2 * mr * b * K) with (2 * mr * c * B * T)
      by (rewrite <- (Z.mul_assoc _ b K), <- HcBT; ring).
    replace ((2 * a * T + b) * K) with ((2 * (a * K) + c * B) * T)
      by (rewrite Z.mul_add_distr_r, Z.mul_add_distr_r, HcBT; ring).
    apply Z.mul_le_mono_nonneg_r; lia. }
  clear F1 F2 F3 HcBT HmA' HmA HmB.
  pose proof (Z.div_mod a b ltac:(lia)) as Hdm.
  pose proof (Z.mod_pos_bound a b ltac:(lia)) as Hmod.
  pose proof (Z.div_pos a b ltac:(lia) ltac:(lia)) as Hq0.
  set (q := a / b) in *. set (r := a mod b) in *.
  assert (Hqa : q <= a).
  { assert (1 * q <= b * q) by (apply Z.mul_le_mono_nonneg_r; lia). lia. }
  assert (Hlow : q * T <= mr).
  { assert (H0 : b * q * T <= a * T) by (apply Z.mul_le_mono_nonneg_r; lia).
    assert (H1 : b * (q * T) < b * (mr + 1)) by lia.
    apply Z.mul_lt_mono_pos_l in H1; lia. }
  assert (Hup : mr < (q + 1) * T).
  { destruct (Z_lt_le_dec mr ((q + 1) * T)) as [|Hge]; [assumption|exfalso].
    assert (H1 : 2 * ((q + 1) * T) * b <= 2 * mr * b)
      by (apply Z.mul_le_mono_nonneg_r; lia).
    assert (H2 : 2 * T * (b - r) <= b).
    { replace (2 * T * (b - r)) with (2 * ((q + 1) * T) * b - 2 * (b * q + r) * T) by ring.
      rewrite <- Hdm. lia. }
    assert (H3 : 2 * T * 1 <= 2 * T * (b - r)) by (apply Z.mul_le_mono_nonneg_l; lia).
    assert (H4 : a * T < 2 ^ 53 * T) by (apply Z.mul_lt_mono_pos_r; lia).
    change (2 ^ 52) with 4503599627370496 in *.
    change (2 ^ 53) with 9007199254740992 in *. lia. }
  destruct Hcase as [[Hp ->]|(Hmr & Hp & ->)].
  - apply integer_of_floor_finite; [lia|lia|].
    replace (- (- sa - - sb - 53 + n)) with t by (unfold t; lia).
    fold T. rewrite Hp. lia.
  - assert (Ht1 : 1 <= t).
    { destruct (Z.eq_dec t 0) as [Ht0|]; [|lia]. exfalso.
      unfold T in *. rewrite Ht0 in *. change (2 ^ 0) with 1 in *. lia. }
    apply integer_of_floor_finite; [lia|lia|].
    replace (- (- sa - - sb - 53 + n + 1)) with (t - 1) by (unfold t; lia).
    assert (HT2 : T = 2 * 2 ^ (t - 1)).
    { unfold T. replace t with (1 + (t - 1)) at 1 by lia.
      rewrite Z.pow_add_r by lia. reflexivity. }
    pose proof (pow2_pos (t - 1) ltac:(lia)) as HT'.
    rewrite Hp. rewrite Hmr, HT2 in Hlow, Hup.
    change (2 ^ 53) with (2 * 2 ^ 52) in Hlow, Hup. lia.
Qed.

(** The Number of 0. *)
Lemma Num_of_Z_0 : Num_of_Z 0 = S754_zero false.
Proof. reflexivity. Qed.

(** The source coordinate on Numbers is the integer quotient as long as
    the product stays below 2^53. *)
Lemma source_coordinate_exact (x W N : Z) :
  0 <= x < 2 ^ 53 -> 0 < W < 2 ^ 53 -> 0 < N < 2 ^ 53 -> x * W < 2 ^ 53 ->
  integer_of (source_coordinate x W N) = Some (x * W / N).
Proof.
  intros Hx HW HN HP. unfold source_coordinate.
  destruct (Z.eq_dec x 0) as [->|Hnz].
  - destruct (Num_of_Z_finite W HW) as (mw & sw & -> & _).
    destruct (Num_of_Z_finite N HN) as (mn & sn & -> & _).
    rewrite Num_of_Z_0. reflexivity.
  - rewrite mul_exact by lia. apply div_floor; [nia|lia].
Qed.

(** The floor of a positive value is an integer not above it. *)
Lemma integer_of_floor_below (p : positive) (e : Z) :
  Z.pos p < 2 ^ 53 ->
  exists I : Z,
    integer_of (Math_floor (S754_finite false p e)) = Some I /\ 0 <= I /\
    forall j : Z, 0 <= j -> 0 <= e + j -> I * 2 ^ j <= Z.pos p * 2 ^ (e + j).
Proof.
  intros Hp. cbn [Math_floor].
  destruct (Z.leb_spec 0 e) as [Hge|Hlt].
  - exists (Z.pos p * 2 ^ e). cbn [integer_of cond_Zopp].
    destruct (Z.leb_spec 0 e) as [_|]; [|lia].
    pose proof (pow2_pos e Hge). split; [reflexivity|]. split; [lia|].
    intros j Hj _. rewrite Z.pow_add_r by lia. lia.
  - pose proof (pow2_pos (- e) ltac:(lia)) as Hc.
    pose proof (Z.div_pos (Z.pos p) (2 ^ (- e)) ltac:(lia) Hc) as Hq0.
    pose proof (Z.mul_div_le (Z.pos p) (2 ^ (- e)) Hc) as Hle.
    set (I := Z.pos p / 2 ^ (- e)) in *.
    assert (HI : I < 2 ^ 53) by nia.
    exists I. split; [|split; [exact Hq0|]].
    + destruct (Z.eqb_spec I 0) as [->|]; [reflexivity|].
      apply integer_of_Num_of_Z. lia.
    + intros j Hj Hej. replace j with (- e + (e + j)) at 1 by lia.
      rewrite Z.pow_add_r, Z.mul_assoc by lia.
      apply Z.mul_le_mono_nonneg_r; [apply Z.pow_nonneg; lia|lia].
Qed.

(** Whatever the rounding of the product and of the quotient, the source
    coordinate of a destination coordinate inside the target is an integer
    inside the source, for sizes up to 2^51. *)
Lemma source_coordinate_in_bounds (x W N : Z) :
  0 <= x < N -> 0 < W < 2 ^ 51 -> N <= 2 ^ 51 ->
  exists s : Z, integer_of (source_coordinate x W N) = Some s /\ 0 <= s < W.
Proof.
  intros Hx HW HN. unfold source_coordinate.
  assert (H51 : 2 ^ 51 < 2 ^ 53) by (apply Z.pow_lt_mono_r; lia).
  destruct (Num_of_Z_finite W ltac:(lia)) as (mw & sw & -> & Hsw & Hmw & Hbw).
  destruct (Num_of_Z_finite N ltac:(lia)) as (mn & sn & -> & Hsn & Hmn & Hbn).
  destruct (Z.eq_dec x 0) as [->|Hnz].
  { exists 0. rewrite Num_of_Z_0. split; [reflexivity|lia]. }
  destruct (Num_of_Z_finite x ltac:(lia)) as (mx & sx & -> & Hsx & Hmx & Hbx).
  destruct (mul_finite mx mw sx sw Hbx Hbw Hsx Hsw)
    as (p1 & e1 & mr1 & n1 & -> & Hp1 & Hn1 & M1 & _ & M3 & Hc1).
  (* the product, scaled: p1 * 2^k1 with e1 = k1 - sx - sw *)
  assert (Hk1 : exists k1 : Z, e1 = k1 - sx - sw /\ n1 <= k1 <= n1 + 1 /\
                 Z.pos p1 * 2 ^ k1 * 2 ^ 53 <= (2 ^ 53 + 1) * (Z.pos mx * Z.pos mw)).
  { pose proof (pow2_pos n1 ltac:(lia)) as Hc.
    assert (Hs : 2 ^ (n1 + 1) = 2 * 2 ^ n1) by (rewrite Z.pow_add_r by lia; ring).
    assert (HV : mr1 * 2 ^ n1 * 2 ^ 53 <= (2 ^ 53 + 1) * (Z.pos mx * Z.pos mw)).
    { change (2 ^ 53) with (2 ^ 52 * 2) at 1. lia. }
    destruct Hc1 as [[Hp ->]|(Hmr & Hp & ->)].
    - exists n1. rewrite Hp. repeat split; try lia.
    - exists (n1 + 1). rewrite Hp, Hs. rewrite Hmr in HV.
      change (2 ^ 53) with (2 ^ 52 * 2) in HV at 1. repeat split; try lia. }
  destruct Hk1 as (k1 & -> & Hkn1 & A).
  destruct (div_finite p1 mn (k1 - sx - sw) (- sn) Hp1 Hbn ltac:(lia))
    as (p2 & e2 & mr2 & n2 & -> & Hp2 & Hn2 & D1 & _ & D3 & Hc2).
  (* the quotient, scaled: p2 * 2^k2 with e2 = e1 + sn - 53 + k2 *)
  assert (Hk2 : exists k2 : Z, e2 = k1 - sx - sw + sn - 53 + k2 /\ 0 <= k2 <= 2 /\
                 Z.pos p2 * 2 ^ k2 * Z.pos mn <= (2 ^ 53 + 1) * Z.pos p1).
  { assert (Hc : 0 < 2 ^ n2) by (apply pow2_pos; lia).
    assert (Hs : 2 ^ (n2 + 1) = 2 * 2 ^ n2) by (rewrite Z.pow_add_r by lia; ring).
    assert (HV : mr2 * 2 ^ n2 * Z.pos mn * 2 ^ 53 <= (2 ^ 53 + 1) * (Z.pos p1 * 2 ^ 53)).
    { change (2 ^ 53) with (2 ^ 52 * 2) at 1. lia. }
    assert (HV' : mr2 * 2 ^ n2 * Z.pos mn <= (2 ^ 53 + 1) * Z.pos p1).
    { apply (Z.mul_le_mono_pos_r _ _ (2 ^ 53)); lia. }
    destruct Hc2 as [[Hp ->]|(Hmr & Hp & ->)].
    - exists n2. rewrite Hp. repeat split; try lia.
    - exists (n2 + 1). rewrite Hp, Hs. rewrite Hmr in HV'.
      change (2 ^ 53) with (2 ^ 52 * 2) in HV' at 1. repeat split; try lia. }
  destruct Hk2 as (k2 & -> & Hk2 & B).
  destruct (integer_of_floor_below p2 (k1 - sx - sw + sn - 53 + k2) ltac:(lia))
    as (I & -> & HI0 & HI).
  exists I. split; [reflexivity|]. split; [exact HI0|].
  specialize (HI 106 ltac:(lia) ltac:(lia)).
  set (E := k1 - sx - sw + sn - 53 + k2 + 106) in *.
  assert (HE : 0 <= E) by (unfold E; lia).
  pose proof (pow2_pos E HE) as HpE.
  pose proof (pow2_pos (sx + sw) ltac:(lia)) as Hps.
  pose proof (pow2_pos k1 ltac:(lia)) as Hpk1.
  pose proof (pow2_pos k2 ltac:(lia)) as Hpk2.
  pose proof (pow2_pos sn ltac:(lia)) as Hpsn.
  (* the two bounds chained *)
  assert (C : Z.pos p2 * 2 ^ E * N <= (2 ^ 53 + 1) * (2 ^ 53 + 1) * (x * W)).
  { apply (Z.mul_le_mono_pos_r _ _ (2 ^ (sx + sw)) Hps).
    assert (HEs : 2 ^ E * 2 ^ (sx + sw) = 2 ^ k2 * 2 ^ sn * (2 ^ k1 * 2 ^ 53)).
    { rewrite <- !Z.pow_add_r by lia. f_equal. unfold E. lia. }
    assert (HX : Z.pos mx * Z.pos mw = x * W * 2 ^ (sx + sw)).
    { rewrite Hmx, Hmw, Z.pow_add_r by lia. ring. }
    rewrite HX in A. rewrite Hmn in B.
    assert (B' : Z.pos p2 * 2 ^ k2 * (N * 2 ^ sn) * (2 ^ k1 * 2 ^ 53)
                 <= (2 ^ 53 + 1) * Z.pos p1 * (2 ^ k1 * 2 ^ 53))
      by (apply Z.mul_le_mono_nonneg_r; lia).
    assert (A' : (2 ^ 53 + 1) * (Z.pos p1 * 2 ^ k1 * 2 ^ 53)
                 <= (2 ^ 53 + 1) * ((2 ^ 53 + 1) * (x * W * 2 ^ (sx + sw))))
      by (apply Z.mul_le_mono_nonneg_l; lia).
    replace (Z.pos p2 * 2 ^ E * N * 2 ^ (sx + sw))
      with (Z.pos p2 * 2 ^ k2 * (N * 2 ^ sn) * (2 ^ k1 * 2 ^ 53)).
    2:{ replace (Z.pos p2 * 2 ^ E * N * 2 ^ (sx + sw))
          with (Z.pos p2 * N * (2 ^ E * 2 ^ (sx + sw))) by ring.
        rewrite HEs. ring. }
    eapply Z.le_trans; [exact B'|].
    replace ((2 ^ 53 + 1) * Z.pos p1 * (2 ^ k1 * 2 ^ 53))
      with ((2 ^ 53 + 1) * (Z.pos p1 * 2 ^ k1 * 2 ^ 53)) by ring.
    eapply Z.le_trans; [exact A'|]. apply Z.eq_le_incl. ring. }
  destruct (Z_lt_le_dec I W) as [|Hge]; [assumption|exfalso].
  assert (H1 : I * 2 ^ 106 * N <= Z.pos p2 * 2 ^ E * N)
    by (apply Z.mul_le_mono_nonneg_r; lia).
  assert (H2 : W * 2 ^ 106 * N <= I * 2 ^ 106 * N).
  { apply Z.mul_le_mono_nonneg_r; [lia|]. apply Z.mul_le_mono_nonneg_r; lia. }
  assert (H3 : (2 ^ 53 + 1) * (2 ^ 53 + 1) * (x * W)
               <= (2 ^ 53 + 1) * (2 ^ 53 + 1) * ((N - 1) * W)).
  { apply Z.mul_le_mono_nonneg_l; [lia|]. apply Z.mul_le_mono_nonneg_r; lia. }
  assert (H4 : W * (2 ^ 106 * N) <= W * ((2 ^ 53 + 1) * (2 ^ 53 + 1) * (N - 1))).
  { replace (W * (2 ^ 106 * N)) with (W * 2 ^ 106 * N) by ring.
    replace (W * ((2 ^ 53 + 1) * (2 ^ 53 + 1) * (N - 1)))
      with ((2 ^ 53 + 1) * (2 ^ 53 + 1) * ((N - 1) * W)) by ring.
    lia. }
  apply Z.mul_le_mono_pos_l in H4; [|lia].
  change (2 ^ 106) with 81129638414606681695789005144064 in H4.
  change (2 ^ 53) with 9007199254740992 in H4.
  change (2 ^ 51) with 2251799813685248 in HN. lia.
Qed.

(** At a width of 94906269 the product of column 94906265 and the width
    passes 2^53 and is rounded to an even integer: the column computed for
    an identity resize is 94906264. *)
Lemma source_coordinate_rounds :
  integer_of (source_coordinate 94906265 94906269 94906269) = Some 94906264.
Proof. vm_compute. reflexivity. Qed.

(** Where the products are exact the source coordinate designates the
    element at the integer quotient. *)
Lemma array_index_exact (x oldDim newDim : nat) :
  (x < newDim)%nat -> (0 < oldDim)%nat -> exact_sizes oldDim newDim ->
  array_index (source_coordinate (Z.of_nat x) (Z.of_nat oldDim) (Z.of_nat newDim))
    = Some (x * oldDim / newDim)%nat.
Proof.
  intros Hx Hold Hex. unfold exact_sizes in Hex. unfold array_index.
  assert (HN : Z.of_nat newDim < 2 ^ 53) by nia.
  assert (HW : Z.of_nat oldDim < 2 ^ 53) by nia.
  assert (HP : Z.of_nat x * Z.of_nat oldDim < 2 ^ 53) by nia.
  rewrite source_coordinate_exact by lia.
  pose proof (Z.div_pos (Z.of_nat x * Z.of_nat oldDim) (Z.of_nat newDim)
                ltac:(lia) ltac:(lia)) as Hq.
  destruct (Z.leb_spec 0 (Z.of_nat x * Z.of_nat oldDim / Z.of_nat newDim)); [|lia].
  f_equal. rewrite <- Nat2Z.inj_mul, <- Nat2Z.inj_div, Nat2Z.id. reflexivity.
Qed.

(** For sides up to 2^51 the source coordinate designates an element
    inside the source, whatever was rounded. *)
Lemma array_index_in_bounds (x oldDim newDim : nat) :
  (x < newDim)%nat -> (0 < oldDim)%nat ->
  Z.of_nat oldDim < 2 ^ 51 -> Z.of_nat newDim <= 2 ^ 51 ->
  exists s : nat,
    array_index (source_coordinate (Z.of_nat x) (Z.of_nat oldDim) (Z.of_nat newDim))
      = Some s /\ (s < oldDim)%nat.
Proof.
  intros Hx Hold HW HN.
  destruct (source_coordinate_in_bounds (Z.of_nat x) (Z.of_nat oldDim) (Z.of_nat newDim)
              ltac:(lia) ltac:(lia) HN) as (s & Hs & Hs0 & Hslt).
  exists (Z.to_nat s). unfold array_index. rewrite Hs.
  destruct (Z.leb_spec 0 s); [|lia]. split; [reflexivity|lia].
Qed.

End SourceCoordinates.

(* ================================================================== *)
(** ** Theorems on the resizer                                         *)
(* ================================================================== *)

Section ResizerTheorems.

Local Open Scope nat_scope.

(** A buffer of a length that a typed array can have has sides below
    2^51, as soon as it holds a pixel. *)
Lemma array_length_side (w h : nat) :
  0 < h -> array_length (w * h * 4) -> (Z.of_nat w < 2 ^ 51)%Z.
Proof.
  unfold array_length. intros Hh Hlen.
  assert (w * 4 <= w * h * 4) by nia.
  change (2 ^ 53)%Z with (2 ^ 51 * 4)%Z in Hlen. lia.
Qed.

(** Where the products are exact, the sample chosen for destination pixel
    (x, y) is the sample of the source pixel at the integer quotients. *)
Lemma nearest_sample_exact (img : image) (newW newH x y c : nat) :
  x < newW -> y < newH -> c < 4 ->
  0 < width img -> 0 < height img ->
  exact_sizes (width img) newW -> exact_sizes (height img) newH ->
  nearest_sample img newW newH ((y * newW + x) * 4 + c) =
    ToUint8 (data img
               !! ((y * height img / newH * width img + x * width img / newW) * 4 + c)).
Proof.
  intros Hx Hy Hc HW HH HeW HeH.
  rewrite nearest_sample_at by assumption.
  unfold source_index. rewrite !array_index_exact by assumption. reflexivity.
Qed.

(** An index of a buffer of [w] by [h] pixels, by row, column and
    channel. *)
Lemma sample_position (w h k : nat) :
  k < w * h * 4 ->
  k = (k / 4 / w * w + (k / 4) mod w) * 4 + k mod 4 /\
  (k / 4) mod w < w /\ k / 4 / w < h /\ k mod 4 < 4.
Proof.
  intros Hk.
  assert (Hw : w <> 0) by (intros E; rewrite E in Hk; lia).
  split; [|split; [|split]].
  - rewrite (Nat.mul_comm (k / 4 / w)), <- Nat.div_mod by assumption.
    rewrite (Nat.mul_comm (k / 4)), <- Nat.div_mod by lia. reflexivity.
  - apply Nat.mod_upper_bound. assumption.
  - apply Nat.Div0.div_lt_upper_bound, Nat.Div0.div_lt_upper_bound. lia.
  - apply Nat.mod_upper_bound. lia.
Qed.

(** C4, amended.  Resizing a well-formed buffer (a typed array, so of a
    length below 2^53) to its own width and height gives back the same
    image, every sample of the new buffer being the sample at the same
    index of the source, as long as the squares of the width and of the
    height are below 2^53 (sides up to 94906265, which covers every JPEG:
    their sides are at most 65535). *)
Theorem resizeNearestNeighbor_identity (img : image) :
  well_formed img -> array_length (length (data img)) ->
  exact_sizes (width img) (width img) -> exact_sizes (height img) (height img) ->
  data (resizeNearestNeighbor img (width img) (height img)) = data img /\
  resizeNearestNeighbor img (width img) (height img) = img.
Proof.
  intros Hwf _ HeW HeH. unfold well_formed in Hwf.
  assert (Hdata : data (resizeNearestNeighbor img (width img) (height img)) = data img).
  { apply list_eq. intros k.
    destruct (decide (k < width img * height img * 4)) as [Hk|Hk].
    - rewrite resizeNearestNeighbor_lookup by exact Hk.
      assert (width img <> 0 /\ height img <> 0) as [HW HH]
        by (split; intros E; rewrite E in Hk; lia).
      destruct (sample_position _ _ k Hk) as (Hpos & Hx & Hy & Hc).
      destruct (lookup_lt_is_Some_2 (data img) k ltac:(lia)) as [b Hb].
      rewrite Hb. rewrite Hpos in Hb |- * at 1.
      rewrite nearest_sample_exact by (assumption || lia).
      rewrite !Nat.div_mul by assumption. by rewrite Hb.
    - rewrite !(proj2 (lookup_ge_None _ _)); [reflexivity|lia|].
      rewrite length_resizeNearestNeighbor. lia. }
  split; [exact Hdata|].
  destruct img as [w h d]. unfold resizeNearestNeighbor in *. cbn [data width height] in *.
  by rewrite Hdata.
Qed.

(** An instance: a 2 by 1 image. *)
Lemma resizeNearestNeighbor_identity_witness :
  data (resizeNearestNeighbor Examples.img_2x1 (width Examples.img_2x1)
          (height Examples.img_2x1)) = data Examples.img_2x1 /\
  resizeNearestNeighbor Examples.img_2x1 (width Examples.img_2x1)
    (height Examples.img_2x1) = Examples.img_2x1.
Proof.
  apply (resizeNearestNeighbor_identity Examples.img_2x1);
    [reflexivity|vm_compute; reflexivity|vm_compute; reflexivity
    |vm_compute; reflexivity].
Defined.

(** C4, as the specification words it, fails on a buffer that can exist.
    In a row of 94906269 pixels the product of column 94906265 and the
    width is rounded, the quotient falls below 94906265, and the identity
    resize copies pixel 94906264 into pixel 94906265: the first sample of
    that pixel is white in the source and black in the result. *)
Lemma resizeNearestNeighbor_identity_rounds :
  well_formed Examples.img_wide /\
  array_length (length (data Examples.img_wide)) /\
  array_index (source_coordinate 94906265 94906269 94906269)
    = Some (Z.to_nat 94906264) /\
  data Examples.img_wide !! Z.to_nat 379625060 = Some Byte.xff /\
  data (resizeNearestNeighbor Examples.img_wide (width Examples.img_wide)
          (height Examples.img_wide)) !! Z.to_nat 379625060 = Some Byte.x00 /\
  data (resizeNearestNeighbor Examples.img_wide (width Examples.img_wide)
          (height Examples.img_wide)) <> data Examples.img_wide.
Proof.
  assert (Hlen : length (data Examples.img_wide) = Z.to_nat 379625076).
  { unfold Examples.img_wide. cbn [data].
    rewrite length_app, !length_replicate. lia. }
  assert (Hsrc : data Examples.img_wide !! Z.to_nat 379625060 = Some Byte.xff).
  { unfold Examples.img_wide. cbn [data].
    rewrite lookup_app_r by (rewrite length_replicate; lia).
    rewrite length_replicate, Nat.sub_diag. apply lookup_replicate_2. lia. }
  assert (Hx : array_index (source_coordinate 94906265 94906269 94906269)
               = Some (Z.to_nat 94906264)).
  { unfold array_index. rewrite source_coordinate_rounds. reflexivity. }
  assert (Hdst : data (resizeNearestNeighbor Examples.img_wide (width Examples.img_wide)
                         (height Examples.img_wide)) !! Z.to_nat 379625060
                 = Some Byte.x00).
  { assert (Hk : Z.to_nat 379625060 = (0 * Z.to_nat 94906269 + Z.to_nat 94906265) * 4 + 0)
      by lia.
    rewrite resizeNearestNeighbor_lookup
      by (unfold Examples.img_wide; cbn [width height]; lia).
    rewrite Hk at 1. change (width Examples.img_wide) with (Z.to_nat 94906269).
    rewrite nearest_sample_at by lia.
    change (width Examples.img_wide) with (Z.to_nat 94906269).
    change (height Examples.img_wide) with 1.
    rewrite !Z2Nat.id by lia. change (Z.of_nat 0) with 0%Z. change (Z.of_nat 1) with 1%Z.
    assert (Hy : array_index (source_coordinate 0 1 1) = Some 0) by reflexivity.
    unfold source_index. rewrite Hy, Hx. cbn [read_sample].
    unfold Examples.img_wide. cbn [data].
    rewrite lookup_app_l by (rewrite length_replicate; lia).
    rewrite lookup_replicate_2 by lia. reflexivity. }
  split.
  { unfold well_formed. rewrite Hlen. unfold Examples.img_wide.
    cbn [width height]. lia. }
  split; [unfold array_length; rewrite Hlen; lia|].
  split; [exact Hx|]. split; [exact Hsrc|]. split; [exact Hdst|].
  intros Heq. rewrite Heq, Hsrc in Hdst. discriminate Hdst.
Qed.

(** C7.  For a source of positive width and height and a destination
    pixel (x, y) inside the target, the source column and row that the
    code computes, [Math.floor(x * oldW / newW)] and
    [Math.floor(y * oldH / newH)] on Numbers, are integers inside the
    source, whatever the rounding of the product and of the quotient; where
    the products are exact they are the integer quotients.  So the four
    reads of the pixel fall inside a well-formed source buffer: each
    returns a byte, and that byte is what the resized buffer holds (the
    zero written for [undefined] never appears).  The two buffers are typed
    arrays, whose lengths are below 2^53. *)
Theorem nearest_source_in_bounds (img : image) (newW newH x y : nat) :
  0 < width img -> 0 < height img -> well_formed img ->
  x < newW -> y < newH ->
  array_length (length (data img)) -> array_length (newW * newH * 4) ->
  exists srcX srcY : nat,
    array_index (source_coordinate (Z.of_nat x) (Z.of_nat (width img)) (Z.of_nat newW))
      = Some srcX /\
    array_index (source_coordinate (Z.of_nat y) (Z.of_nat (height img)) (Z.of_nat newH))
      = Some srcY /\
    srcX < width img /\ srcY < height img /\
    (exact_sizes (width img) newW -> srcX = x * width img / newW) /\
    (exact_sizes (height img) newH -> srcY = y * height img / newH) /\
    forall c : nat, c < 4 ->
      exists b : Byte.byte,
        data img !! ((srcY * width img + srcX) * 4 + c) = Some b /\
        data (resizeNearestNeighbor img newW newH) !! ((y * newW + x) * 4 + c) = Some b.
Proof.
  intros HW HH Hwf Hx Hy Hsrc Hdst. unfold well_formed in Hwf. rewrite Hwf in Hsrc.
  pose proof (array_length_side (width img) (height img) HH Hsrc) as HW51.
  assert (HH51 : (Z.of_nat (height img) < 2 ^ 51)%Z).
  { apply (array_length_side _ (width img) HW).
    by rewrite (Nat.mul_comm (height img)). }
  assert (HnW51 : (Z.of_nat newW < 2 ^ 51)%Z)
    by (apply (array_length_side _ newH); [lia|exact Hdst]).
  assert (HnH51 : (Z.of_nat newH < 2 ^ 51)%Z).
  { apply (array_length_side _ newW); [lia|]. by rewrite (Nat.mul_comm newH). }
  destruct (array_index_in_bounds x (width img) newW Hx HW HW51 ltac:(lia))
    as (sx & Hsx & Hsxlt).
  destruct (array_index_in_bounds y (height img) newH Hy HH HH51 ltac:(lia))
    as (sy & Hsy & Hsylt).
  exists sx, sy.
  split; [exact Hsx|]. split; [exact Hsy|]. split; [exact Hsxlt|]. split; [exact Hsylt|].
  split.
  { intros Hex. rewrite array_index_exact in Hsx by assumption. by injection Hsx. }
  split.
  { intros Hex. rewrite array_index_exact in Hsy by assumption. by injection Hsy. }
  intros c Hc.
  destruct (lookup_lt_is_Some_2 (data img) ((sy * width img + sx) * 4 + c)
              ltac:(nia)) as [b Hb].
  exists b. split; [exact Hb|].
  rewrite resizeNearestNeighbor_lookup by nia.
  rewrite nearest_sample_at by assumption.
  unfold source_index. rewrite Hsx, Hsy. cbn [read_sample]. by rewrite Hb.
Qed.

(** An instance: pixel (1, 1) of a 3 by 2 target over a 2 by 1 source. *)
Lemma nearest_source_in_bounds_witness :
  exists srcX srcY : nat,
    array_index (source_coordinate (Z.of_nat 1) (Z.of_nat (width Examples.img_2x1))
                   (Z.of_nat 3)) = Some srcX /\
    array_index (source_coordinate (Z.of_nat 1) (Z.of_nat (height Examples.img_2x1))
                   (Z.of_nat 2)) = Some srcY /\
    srcX < width Examples.img_2x1 /\ srcY < height Examples.img_2x1 /\
    (exact_sizes (width Examples.img_2x1) 3 -> srcX = 1 * width Examples.img_2x1 / 3) /\
    (exact_sizes (height Examples.img_2x1) 2 -> srcY = 1 * height Examples.img_2x1 / 2) /\
    forall c : nat, c < 4 ->
      exists b : Byte.byte,
        data Examples.img_2x1 !! ((srcY * width Examples.img_2x1 + srcX) * 4 + c) = Some b /\
        data (resizeNearestNeighbor Examples.img_2x1 3 2) !! ((1 * 3 + 1) * 4 + c) = Some b.
Proof.
  apply (nearest_source_in_bounds Examples.img_2x1 3 2 1 1);
    [simpl; lia|simpl; lia|reflexivity|lia|lia
    |vm_compute; reflexivity|vm_compute; reflexivity].
Defined.

End ResizerTheorems.

(* ================================================================== *)
(** ** The placeholder text                                            *)
(* ================================================================== *)

Section PlaceholderText.

(** The text of a record: [KA], an integer from 0 to 99, [AB], an integer
    from 0 to 9999. *)
Lemma plate_text_form (r1 r2 : number) :
  unit_draw r1 -> unit_draw r2 ->
  exists n m : Z,
    0 <= n <= 99 /\ 0 <= m <= 9999 /\
    plate_text r1 r2 = ("KA" ++ decimal n ++ "AB" ++ decimal m)%string.
Proof.
  intros H1 H2.
  destruct (floor_mul_unit_draw r1 7036874417766400 (-46) 100 H1)
    as (n & Hn & _ & Hsn); [split; reflexivity|lia|reflexivity|lia|].
  destruct (floor_mul_unit_draw r2 5497558138880000 (-39) 10000 H2)
    as (m & Hm & _ & Hsm); [split; reflexivity|lia|reflexivity|lia|].
  exists n, m. split; [lia|]. split; [lia|].
  unfold plate_text, hundred, ten_thousand. by rewrite Hsn, Hsm.
Qed.

Lemma text_records (output : list number) d c (idxs : list nat) :
  text <$> records output d c idxs = random_texts d c (length idxs).
Proof.
  revert c. induction idxs as [|i idxs IH]; intros c; [reflexivity|].
  cbn. by rewrite IH.
Qed.

Lemma records_form (output : list number) d c (idxs : list nat) :
  (forall k : nat, unit_draw (d k)) ->
  Forall (fun p => exists n m : Z,
            0 <= n <= 99 /\ 0 <= m <= 9999 /\
            text p = ("KA" ++ decimal n ++ "AB" ++ decimal m)%string)
    (records output d c idxs).
Proof.
  intros Hd. revert c. induction idxs as [|i idxs IH]; intros c; constructor.
  - apply plate_text_form; apply Hd.
  - apply IH.
Qed.

(** Equal patterns keep equally many detections. *)
Lemma filter_length_pattern (f1 f2 : nat -> bool) (l1 l2 : list nat) :
  f1 <$> l1 = f2 <$> l2 ->
  length (filter (fun i => f1 i = true) l1) = length (filter (fun i => f2 i = true) l2).
Proof.
  revert l2. induction l1 as [|a l1 IH]; intros [|b l2] Heq; try discriminate;
    [reflexivity|].
  cbn in Heq. injection Heq as Hab Heq.
  rewrite !filter_cons, Hab.
  destruct (decide (f2 b = true)); cbn; rewrite (IH l2 Heq); reflexivity.
Qed.

(** C9.  The text of every record that [processOutput] emits is read off
    the random source alone: the texts of a run are the texts made from
    the next draws, two for each record, and each has the form [KA] n [AB]
    m with 0 <= n <= 99 and 0 <= m <= 9999.  Two runs on different arrays
    with the same random source and the same pattern of detections above
    the threshold produce the same texts. *)
Theorem plate_text_is_random (out1 out2 : list number) (g : rng) :
  (forall k : nat, unit_draw (draws g k)) ->
  pattern out1 = pattern out2 ->
  exists (plates1 plates2 : list plate) (g1 g2 : rng),
    processOutput g out1 = Some (plates1, g1) /\
    processOutput g out2 = Some (plates2, g2) /\
    text <$> plates1 = random_texts (draws g) (cursor g) (length plates1) /\
    text <$> plates2 = random_texts (draws g) (cursor g) (length plates2) /\
    text <$> plates1 = text <$> plates2 /\
    Forall (fun p => exists n m : Z,
              0 <= n <= 99 /\ 0 <= m <= 9999 /\
              text p = ("KA" ++ decimal n ++ "AB" ++ decimal m)%string)
      (plates1 ++ plates2).
Proof.
  intros Hd Hpat.
  exists (records out1 (draws g) (cursor g) (kept out1)),
    (records out2 (draws g) (cursor g) (kept out2)),
    (advance g (2 * length (kept out1))), (advance g (2 * length (kept out2))).
  split; [apply processOutput_spec|]. split; [apply processOutput_spec|].
  rewrite !text_records, !length_records.
  split; [reflexivity|]. split; [reflexivity|].
  split.
  - f_equal. unfold kept. apply filter_length_pattern. exact Hpat.
  - apply Forall_app. split; by apply records_form.
Qed.

(** An instance: two arrays that differ everywhere and keep the same
    detection. *)
Lemma plate_text_is_random_witness :
  exists (plates1 plates2 : list plate) (g1 g2 : rng),
    processOutput Examples.g_alt Examples.out_two = Some (plates1, g1) /\
    processOutput Examples.g_alt Examples.out_two' = Some (plates2, g2) /\
    text <$> plates1
      = random_texts (draws Examples.g_alt) (cursor Examples.g_alt) (length plates1) /\
    text <$> plates2
      = random_texts (draws Examples.g_alt) (cursor Examples.g_alt) (length plates2) /\
    text <$> plates1 = text <$> plates2 /\
    Forall (fun p => exists n m : Z,
              0 <= n <= 99 /\ 0 <= m <= 9999 /\
              text p = ("KA" ++ decimal n ++ "AB" ++ decimal m)%string)
      (plates1 ++ plates2).
Proof.
  apply (plate_text_is_random Examples.out_two Examples.out_two' Examples.g_alt).
  - intros k. simpl. destruct (Nat.even k); vm_compute; repeat split; reflexivity.
  - vm_compute. reflexivity.
Defined.

End PlaceholderText.

(* ================================================================== *)
(** ** More on the decoder                                             *)
(* ================================================================== *)

Section DecoderReads.

(** Filtering by two tests that agree on the list. *)
Lemma filter_agree (f1 f2 : nat -> bool) (l : list nat) :
  Forall (fun i => f1 i = f2 i) l ->
  filter (fun i => f1 i = true) l = filter (fun i => f2 i = true) l.
Proof.
  induction 1 as [|i l Hi _ IH]; [reflexivity|].
  rewrite !filter_cons, Hi, IH. reflexivity.
Qed.

Lemma records_agree (out1 out2 : list number) d c (idxs : list nat) :
  Forall (fun i => forall c', (c' < 5)%nat ->
            out1 !! (1 + i * 6 + c')%nat = out2 !! (1 + i * 6 + c')%nat) idxs ->
  records out1 d c idxs = records out2 d c idxs.
Proof.
  intros H. revert c. induction H as [|i idxs Hi _ IH]; intros c; [reflexivity|].
  cbn [records]. rewrite IH. f_equal.
  unfold record_at, confidence_at.
  rewrite <- (Hi 4%nat), <- (Hi 3%nat), <- (Hi 2%nat), <- (Hi 1%nat) by lia.
  pose proof (Hi 0%nat ltac:(lia)) as H0. rewrite Nat.add_0_r in H0.
  by rewrite H0.
Qed.

(** Two arrays that agree where the decoder can read decode alike. *)
Lemma processOutput_agree (out1 out2 : list number) (g : rng) :
  (forall k : nat, is_read_index k -> out1 !! k = out2 !! k) ->
  processOutput g out1 = processOutput g out2.
Proof.
  intros Hread.
  assert (Hcell : forall i c, (i < 10)%nat -> (c < 5)%nat ->
            out1 !! (1 + i * 6 + c)%nat = out2 !! (1 + i * 6 + c)%nat).
  { intros i c Hi Hc. apply Hread. right. exists i, c. auto. }
  assert (Hnd : numDetections out1 = numDetections out2).
  { unfold numDetections. rewrite (Hread 0%nat); [reflexivity|by left]. }
  assert (Hit : iterations out1 = iterations out2).
  { unfold iterations. by rewrite Hnd. }
  assert (Hkept : kept out1 = kept out2).
  { unfold kept. rewrite <- Hit. apply filter_agree, Forall_forall.
    intros i Hi. apply elem_of_seq in Hi.
    pose proof (iterations_le_10 out1).
    unfold above_threshold, confidence_at. rewrite Hcell by lia. reflexivity. }
  rewrite !processOutput_spec, <- Hkept. do 2 f_equal.
  apply records_agree, Forall_forall. intros i Hi c Hc.
  unfold kept in Hi. apply list_elem_of_filter in Hi as [_ Hi].
  apply elem_of_seq in Hi. pose proof (iterations_le_10 out1).
  apply Hcell; lia.
Qed.

(** The sixth number of a record is never read: overwriting it, in any
    record, changes nothing. *)
Theorem processOutput_ignores_sixth (output : list number) (g : rng)
    (i : nat) (v : number) :
  processOutput g (<[(1 + i * 6 + 5)%nat := v]> output) = processOutput g output.
Proof.
  apply processOutput_agree. intros k Hk.
  apply list_lookup_insert_ne.
  destruct Hk as [->|(j & c & Hj & Hc & ->)]; lia.
Qed.

(** Nothing from index 60 on is read: the decoder sees the first sixty
    numbers only. *)
Theorem processOutput_reads_prefix (output : list number) (g : rng) :
  processOutput g (take 60 output) = processOutput g output.
Proof.
  apply processOutput_agree. intros k Hk.
  apply lookup_take_lt.
  destruct Hk as [->|(j & c & Hj & Hc & ->)]; lia.
Qed.

(** Two draws are consumed for each record returned, and none otherwise;
    the sequence of draws itself is untouched. *)
Theorem processOutput_draws (output : list number) (g g' : rng)
    (plates : list plate) :
  processOutput g output = Some (plates, g') ->
  draws g' = draws g /\ cursor g' = (cursor g + 2 * length plates)%nat.
Proof.
  rewrite processOutput_spec. intros [= <- <-].
  rewrite length_records. split; reflexivity.
Qed.

(** An instance: two detections, one of them kept. *)
Lemma processOutput_draws_witness :
  draws (advance Examples.g_alt 2) = draws Examples.g_alt /\
  cursor (advance Examples.g_alt 2)
    = (cursor Examples.g_alt
       + 2 * length (records Examples.out_two (draws Examples.g_alt) 0 [0%nat]))%nat.
Proof.
  apply (processOutput_draws Examples.out_two Examples.g_alt).
  vm_compute. reflexivity.
Defined.

(** Every record returned is complete: its confidence is a Number above
    0.5 and its four box coordinates were read inside the array. *)
Theorem processOutput_records_complete (output : list number) (g g' : rng)
    (plates : list plate) :
  processOutput g output = Some (plates, g') ->
  Forall (fun p => exists c a b d e : number,
            confidence p = Some c /\ gt c CONFIDENCE_THRESHOLD = true /\
            bbox p = {| x1 := Some a; y1 := Some b; x2 := Some d; y2 := Some e |})
    plates.
Proof.
  rewrite processOutput_spec. intros [= <- _].
  assert (Hk : Forall (fun i => above_threshold output i = true) (kept output)).
  { apply Forall_forall. intros i Hi. unfold kept in Hi.
    by apply list_elem_of_filter in Hi as [? _]. }
  generalize (cursor g). induction Hk as [|i idxs Hi _ IH]; intros c; constructor;
    [|apply IH].
  unfold above_threshold, confidence_at in Hi.
  destruct (output !! (1 + i * 6 + 4)%nat) as [conf|] eqn:Hc; [|discriminate].
  pose proof (lookup_lt_Some _ _ _ Hc) as Hlen.
  destruct (lookup_lt_is_Some_2 output (1 + i * 6)%nat ltac:(lia)) as [a Ha].
  destruct (lookup_lt_is_Some_2 output (1 + i * 6 + 1)%nat ltac:(lia)) as [b Hb].
  destruct (lookup_lt_is_Some_2 output (1 + i * 6 + 2)%nat ltac:(lia)) as [d Hd].
  destruct (lookup_lt_is_Some_2 output (1 + i * 6 + 3)%nat ltac:(lia)) as [e He].
  exists conf, a, b, d, e. unfold record_at, confidence_at. cbn [confidence bbox].
  rewrite Hc, Ha, Hb, Hd, He. auto.
Qed.

(** An instance: the record kept from two detections. *)
Lemma processOutput_records_complete_witness :
  Forall (fun p => exists c a b d e : number,
            confidence p = Some c /\ gt c CONFIDENCE_THRESHOLD = true /\
            bbox p = {| x1 := Some a; y1 := Some b; x2 := Some d; y2 := Some e |})
    (records Examples.out_two (draws Examples.g_alt) 0 [0%nat]).
Proof.
  apply (processOutput_records_complete Examples.out_two Examples.g_alt
           (advance Examples.g_alt 2)).
  vm_compute. reflexivity.
Defined.

(** A count that is missing (an empty array) or NaN decodes to nothing,
    and draws nothing. *)
Theorem processOutput_without_count (output : list number) (g : rng) :
  ToNumber (output !! 0%nat) = S754_nan ->
  iterations output = 0%nat /\ processOutput g output = Some ([], g).
Proof.
  intros Hnan.
  assert (Hit : iterations output = 0%nat).
  { unfold iterations, numDetections. rewrite Hnan. reflexivity. }
  split; [exact Hit|]. by apply processOutput_no_iteration.
Qed.

(** An instance: the empty array. *)
Lemma processOutput_without_count_witness :
  iterations [] = 0%nat /\ processOutput Examples.g_alt [] = Some ([], Examples.g_alt).
Proof. apply (processOutput_without_count [] Examples.g_alt). reflexivity. Defined.

End DecoderReads.

(* ================================================================== *)
(** ** More on [processImage]                                          *)
(* ================================================================== *)

Section ProcessImageOutcome.

Local Open Scope string_scope.

Lemma all_chars_app (P : ascii -> bool) (a b : string) :
  all_chars P (a ++ b) = all_chars P a && all_chars P b.
Proof.
  induction a as [|c a IH]; [reflexivity|]. cbn. by rewrite IH, andb_assoc.
Qed.

(** A string without white space is left as it is. *)
Lemma remove_spaces_id (s : string) :
  all_chars (fun c => negb (is_space_char c)) s = true -> remove_spaces s = s.
Proof.
  induction s as [|c s IH]; [reflexivity|].
  cbn. intros [Hc Hs]%andb_true_iff.
  apply negb_true_iff in Hc. rewrite Hc, IH by exact Hs. reflexivity.
Qed.

Lemma string_of_uint_no_space (d : Decimal.uint) :
  all_chars (fun c => negb (is_space_char c)) (NilEmpty.string_of_uint d) = true.
Proof. induction d; cbn; try assumption; reflexivity. Qed.

Lemma decimal_no_space (z : Z) :
  all_chars (fun c => negb (is_space_char c)) (decimal z) = true.
Proof.
  unfold decimal, NilZero.string_of_int, NilZero.string_of_uint.
  destruct (Z.to_int z) as [d|d]; destruct d; try reflexivity;
    apply (string_of_uint_no_space (_ _)) || (cbn; apply string_of_uint_no_space).
Qed.

(** What a Number prints as has no white space. *)
Lemma Number_toString_no_space (x : number) :
  all_chars (fun c => negb (is_space_char c)) (Number_toString x) = true.
Proof.
  destruct x as [s|[]| |s m e]; try reflexivity.
  apply decimal_no_space.
Qed.

Lemma plate_text_no_space (r1 r2 : number) :
  remove_spaces (plate_text r1 r2) = plate_text r1 r2.
Proof.
  apply remove_spaces_id. unfold plate_text.
  rewrite !all_chars_app, !Number_toString_no_space. reflexivity.
Qed.

Lemma plate_text_state_code (r1 r2 : number) :
  substring0 2 (plate_text r1 r2) = "KA".
Proof. reflexivity. Qed.

(** The selected record is one of the candidates. *)
Lemma bestPlate_in (first : plate) (rest : list plate) :
  bestPlate first rest ∈ first :: rest.
Proof.
  unfold bestPlate. revert first.
  induction rest as [|c rest IH]; intros first; [by left|].
  cbn [foldl]. unfold better at 2.
  destruct (gt _ _).
  - specialize (IH first). apply elem_of_cons in IH as [->|IH]; [by left|].
    right. by right.
  - right. apply IH.
Qed.

Lemma records_text (output : list number) d c (idxs : list nat) :
  Forall (fun p => exists r1 r2 : number, text p = plate_text r1 r2)
    (records output d c idxs).
Proof.
  revert c. induction idxs as [|i idxs IH]; intros c; constructor; [|apply IH].
  exists (d c), (d (S c)). reflexivity.
Qed.

(** The text of the selected candidate is one of the placeholder texts. *)
Lemma selected_text (output : list number) (g g' : rng)
    (first : plate) (rest : list plate) :
  processOutput g output = Some (first :: rest, g') ->
  exists r1 r2 : number, text (bestPlate first rest) = plate_text r1 r2.
Proof.
  rewrite processOutput_spec. intros [= Hrec _].
  pose proof (records_text output (draws g) (cursor g) (kept output)) as Hall.
  rewrite Hrec in Hall. rewrite Forall_forall in Hall.
  apply Hall, bestPlate_in.
Qed.

(** When the decoder returns candidates, [processImage] forwards the text
    of the selected one unchanged, with the state code [KA], and navigates
    to [AddCar]; then it resets the processing flag. *)
Theorem processImage_forwards_selected (type_error : string) (g g' : rng)
    (output : list number) (others : list (list number))
    (first : plate) (rest : list plate) :
  processOutput g output = Some (first :: rest, g') ->
  processImage type_error g (inr (output :: others)) =
    Some ([SetLicensePlate (text (bestPlate first rest));
           SetStateCode "KA";
           Navigate "AddCar" (text (bestPlate first rest)) "KA";
           SetIsProcessing false], g').
Proof.
  intros Hout.
  destruct (selected_text output g g' first rest Hout) as (r1 & r2 & Ht).
  unfold processImage, processImage_try. cbn [lookup list_lookup].
  rewrite Hout. cbn beta iota.
  rewrite Ht, plate_text_no_space, plate_text_state_code. reflexivity.
Qed.

(** An instance: two detections, one of them kept. *)
Lemma processImage_forwards_selected_witness :
  processImage "TypeError" Examples.g_alt (inr [Examples.out_two]) =
    Some ([SetLicensePlate
             (text (bestPlate
                      (record_at Examples.out_two 0 (draws Examples.g_alt 0)
                         (draws Examples.g_alt 1)) []));
           SetStateCode "KA";
           Navigate "AddCar"
             (text (bestPlate
                      (record_at Examples.out_two 0 (draws Examples.g_alt 0)
                         (draws Examples.g_alt 1)) [])) "KA";
           SetIsProcessing false], advance Examples.g_alt 2).
Proof.
  apply (processImage_forwards_selected "TypeError" Examples.g_alt
           (advance Examples.g_alt 2) Examples.out_two []).
  vm_compute. reflexivity.
Defined.

(** [processImage] always completes, in one of two ways: it stores and
    forwards a plate text with the state code [KA] and navigates, or it
    shows one alert titled [Processing Failed] whose message is never
    empty.  Either way its last effect resets the processing flag. *)
Theorem processImage_outcome (type_error : string) (g : rng)
    (inference : exn + list (list number)) :
  exists (evs : list event) (g' : rng),
    processImage type_error g inference = Some (evs, g') /\
    ((exists t : string,
        evs = [SetLicensePlate t; SetStateCode "KA";
               Navigate "AddCar" t "KA"; SetIsProcessing false]) \/
     (exists msg : string,
        msg <> "" /\
        evs = [Alert "Processing Failed" msg; SetIsProcessing false])).
Proof.
  assert (Hcatch : forall e : exn,
            exists msg, msg <> "" /\
              (processImage_catch e ++ [SetIsProcessing false])%list
                = [Alert "Processing Failed" msg; SetIsProcessing false]).
  { intros e. unfold processImage_catch.
    destruct (String.eqb_spec (message_of e) "") as [|Hne]; eexists; split;
      try reflexivity; [discriminate|exact Hne]. }
  destruct inference as [e|outputs].
  - destruct (Hcatch e) as (msg & Hne & Heq).
    exists [Alert "Processing Failed" msg; SetIsProcessing false], g.
    split; [unfold processImage; cbn; by rewrite <- Heq|]. right. eauto.
  - destruct outputs as [|output others].
    + destruct (Hcatch (Error type_error)) as (msg & Hne & Heq).
      exists [Alert "Processing Failed" msg; SetIsProcessing false], g.
      split; [unfold processImage; cbn; by rewrite <- Heq|]. right. eauto.
    + destruct (processOutput g output) as [[[|first rest] g']|] eqn:Hout.
      * exists [Alert "Processing Failed" "No license plates detected";
                SetIsProcessing false], g'.
        split; [unfold processImage, processImage_try; cbn [lookup list_lookup];
                by rewrite Hout|].
        right. eexists. split; [|reflexivity]. discriminate.
      * destruct (selected_text output g g' first rest Hout) as (r1 & r2 & Ht).
        eexists _, g'. split.
        { unfold processImage, processImage_try. cbn [lookup list_lookup].
          rewrite Hout. cbn beta iota.
          rewrite Ht, plate_text_no_space, plate_text_state_code. reflexivity. }
        left. eauto.
      * rewrite processOutput_spec in Hout. discriminate.
Qed.

(** When none of the first ten detections is above the threshold, whatever
    the count says, the user is told that no plate was detected, nothing is
    forwarded and no random number is drawn. *)
Theorem processImage_nothing_above (type_error : string) (g : rng)
    (output : list number) (others : list (list number)) :
  (forall i : nat, (i < 10)%nat -> above_threshold output i = false) ->
  processImage type_error g (inr (output :: others)) =
    Some ([Alert "Processing Failed" "No license plates detected";
           SetIsProcessing false], g).
Proof.
  intros Hlow.
  assert (Hkept : kept output = []).
  { unfold kept. pose proof (iterations_le_10 output) as Hle.
    assert (Hall : Forall (fun i => above_threshold output i = false)
                     (seq 0 (iterations output))).
    { apply Forall_forall. intros i Hi. apply elem_of_seq in Hi. apply Hlow. lia. }
    induction Hall as [|i l Hi _ IH]; [reflexivity|].
    rewrite filter_cons, Hi. exact IH. }
  assert (Hout : processOutput g output = Some ([], g)).
  { rewrite processOutput_spec, Hkept. cbn. by rewrite advance_0. }
  unfold processImage, processImage_try. cbn [lookup list_lookup].
  by rewrite Hout.
Qed.

(** An instance: one detection with confidence exactly 0.5. *)
Lemma processImage_nothing_above_witness :
  processImage "TypeError" Examples.g_alt (inr [Samples.out_low]) =
    Some ([Alert "Processing Failed" "No license plates detected";
           SetIsProcessing false], Examples.g_alt).
Proof.
  apply (processImage_nothing_above "TypeError" Examples.g_alt Samples.out_low []).
  intros i Hi.
  do 10 (destruct i as [|i]; [vm_compute; reflexivity|]). lia.
Defined.

End ProcessImageOutcome.

(* ================================================================== *)
(** ** The model cache and the inference call                          *)
(* ================================================================== *)

Section ModelCache.

Context {Model : Type}.

(** Once a model is cached, every later call returns that same model,
    whatever the loader would answer, and the cache keeps it. *)
Lemma load_session_cached (m : Model) (loads : list (exn + Model)) :
  load_session (Some m) loads = (replicate (length loads) (inr m), Some m).
Proof.
  induction loads as [|load loads IH]; [reflexivity|].
  cbn [load_session loadModelIfNeeded]. rewrite IH. reflexivity.
Qed.

(** A failed load leaves the cache empty, so the next call loads again:
    starting with an empty cache, the calls return the loader's failures
    up to its first success, and from then on the model loaded there. *)
Theorem load_session_first_success (loads : list (exn + Model)) (i : nat) (m : Model) :
  (forall j : nat, (j < i)%nat -> exists e : exn, loads !! j = Some (inl e)) ->
  loads !! i = Some (inr m) ->
  load_session None loads =
    (take i loads ++ replicate (length loads - i) (inr m), Some m).
Proof.
  revert i. induction loads as [|load loads IH]; intros i Hfail Hok; [discriminate|].
  destruct i as [|i].
  - cbn in Hok. injection Hok as ->.
    cbn [load_session loadModelIfNeeded]. rewrite load_session_cached.
    reflexivity.
  - destruct (Hfail 0%nat ltac:(lia)) as [e He]. cbn in He. injection He as ->.
    cbn [load_session loadModelIfNeeded].
    rewrite (IH i); [reflexivity| |exact Hok].
    intros j Hj. apply (Hfail (S j)). lia.
Qed.

End ModelCache.

(** An instance: a failure, a success, then answers that are never
    consulted. *)
Lemma load_session_first_success_witness :
  load_session None [inl (Error "no asset"); inr 7%nat; inr 8%nat; inl (Error "late")] =
    (take 1 [inl (Error "no asset"); inr 7%nat; inr 8%nat; inl (Error "late")]
     ++ replicate
          (length [inl (Error "no asset"); inr 7%nat; inr 8%nat; inl (Error "late")] - 1)
          (inr 7%nat),
     Some 7%nat).
Proof.
  apply (load_session_first_success
           [inl (Error "no asset"); inr 7%nat; inr 8%nat; inl (Error "late")] 1 7%nat).
  - intros j Hj. assert (j = 0%nat) as -> by lia. eexists. reflexivity.
  - reflexivity.
Defined.

Section InferenceCall.

Local Open Scope nat_scope.

Context {Model : Type} `{Libraries} `{Runtime Model}.

(** Every element of the tensor of an image lies between 0 and 1. *)
Lemma tensor_of_image_in_unit_interval (raw : image) (targetW targetH : nat) :
  Forall in_unit_interval (tensor_of_image raw targetW targetH).
Proof.
  apply Forall_lookup. intros k v Hk.
  assert (k < targetW * targetH * 3) as Hlt.
  { rewrite <- (length_tensor_of_image raw). by eapply lookup_lt_Some. }
  rewrite tensor_of_image_lookup in Hk by exact Hlt.
  injection Hk as <-. apply normalize_range.
Qed.

(** When the model is available, the file is read and the decoder accepts
    it, the model is run on exactly one input: a tensor of 640 * 640 * 3
    Numbers between 0 and 1.  The result of the call is the result of that
    run, and the model stays cached. *)
Theorem runInferenceOnImage_feeds_model (model : option Model)
    (load : exn + Model) (path b64 : string) (m : Model) (raw : image) :
  fst (loadModelIfNeeded model load) = inr m ->
  RNFS_readFile path = inr b64 ->
  jpeg_decode (Buffer_from_base64 (strip_data_uri b64)) = Some raw ->
  exists tensor : list number,
    runInferenceOnImage model load path = (run m [tensor], Some m) /\
    length tensor = 640 * 640 * 3 /\
    Forall in_unit_interval tensor.
Proof.
  intros Hload Hread Hdec.
  exists (tensor_of_image raw 640 640).
  split; [|split; [apply length_tensor_of_image|apply tensor_of_image_in_unit_interval]].
  unfold runInferenceOnImage, base64ToTensor.
  rewrite Hread, Hdec.
  unfold loadModelIfNeeded in *.
  destruct model as [m'|]; [|destruct load as [e|m']]; cbn in Hload;
    try discriminate; injection Hload as ->; reflexivity.
Qed.

(** After a call that got past loading the model, the model is cached
    whatever happened to the file, and the next call does not consult the
    loader. *)
Theorem runInferenceOnImage_keeps_model (load1 load2 : exn + Model)
    (model : option Model) (m : Model) (path1 path2 : string) :
  fst (loadModelIfNeeded model load1) = inr m ->
  snd (runInferenceOnImage model load1 path1) = Some m /\
  runInferenceOnImage (snd (runInferenceOnImage model load1 path1)) load2 path2
    = runInferenceOnImage (Some m) load1 path2.
Proof.
  intros Hload.
  assert (Hsnd : snd (runInferenceOnImage model load1 path1) = Some m).
  { unfold runInferenceOnImage, loadModelIfNeeded in *.
    destruct model as [m'|]; [|destruct load1 as [e|m']]; cbn in Hload;
      try discriminate; injection Hload as ->;
      destruct (RNFS_readFile path1); try reflexivity;
      destruct (base64ToTensor _ _ _); reflexivity. }
  split; [exact Hsnd|]. rewrite Hsnd. reflexivity.
Qed.

End InferenceCall.

(** An instance: the file [photo.jpg] on an empty cache. *)
Lemma runInferenceOnImage_feeds_model_witness :
  exists tensor : list number,
    @runInferenceOnImage unit Examples.libs Samples.runtime None (inr tt) "photo.jpg"
      = (@run unit Samples.runtime tt [tensor], Some tt) /\
    length tensor = (640 * 640 * 3)%nat /\
    Forall in_unit_interval tensor.
Proof.
  apply (@runInferenceOnImage_feeds_model unit Examples.libs Samples.runtime
           None (inr tt) "photo.jpg" "/9j/4AAQ" tt Examples.img_2x1);
    reflexivity.
Defined.

(** An instance: a missing file after a successful load. *)
Lemma runInferenceOnImage_keeps_model_witness :
  snd (@runInferenceOnImage unit Examples.libs Samples.runtime None (inr tt) "missing.jpg")
    = Some tt /\
  @runInferenceOnImage unit Examples.libs Samples.runtime
      (snd (@runInferenceOnImage unit Examples.libs Samples.runtime None (inr tt)
              "missing.jpg"))
      (inl (Error "no asset")) "photo.jpg"
    = @runInferenceOnImage unit Examples.libs Samples.runtime (Some tt) (inr tt) "photo.jpg".
Proof.
  apply (@runInferenceOnImage_keeps_model unit Examples.libs Samples.runtime
           (inr tt) (inl (Error "no asset")) None tt "missing.jpg" "photo.jpg").
  reflexivity.
Defined.

(* ================================================================== *)
(** ** The actions [captureImage] and [selectImage]                    *)
(* ================================================================== *)

Section Actions.

Variable type_error : string.
Variable infer : string -> exn + list (list number).

(** The two shapes of what [processImage] does. *)
Lemma processImage_cases (g : rng) (inference : exn + list (list number)) :
  exists (evs : list event) (g' : rng),
    processImage type_error g inference = Some (evs, g') /\
    ((exists t c : string,
        evs = [SetLicensePlate t; SetStateCode c; Navigate "AddCar" t c;
               SetIsProcessing false]) \/
     (exists msg : string,
        evs = [Alert "Processing Failed" msg; SetIsProcessing false])).
Proof.
  unfold processImage, processImage_try.
  destruct inference as [e|[|output others]];
    [eexists _, g; split; [reflexivity|]; right; eexists; reflexivity ..|].
  cbn [lookup list_lookup]. rewrite processOutput_spec.
  destruct (records output (draws g) (cursor g) (kept output)) as [|first rest];
    eexists _, _; (split; [reflexivity|]).
  - right. eexists. reflexivity.
  - left. eexists _, _. reflexivity.
Qed.

(** The events of [processImage], seen from an action: the processing
    flag ends up reset, the capturing flag is not touched, exactly one of
    them is an alert or a navigation, and none is the alert of a failed
    capture. *)
Lemma processImage_as_actions (g : rng) (inference : exn + list (list number)) :
  exists (evs : list event) (g' : rng),
    processImage type_error g inference = Some (evs, g') /\
    (forall st : flags,
       replay st (Screen <$> evs)
         = {| isProcessing := false; isCapturing := isCapturing st |}) /\
    length (filter (fun a => is_report a = true) (Screen <$> evs)) = 1%nat /\
    Screen (Alert "Capture Failed" "Please try again.") ∉ (Screen <$> evs).
Proof.
  destruct (processImage_cases g inference)
    as (evs & g' & Hrun & [(t & c & ->)|(msg & ->)]);
    eexists _, g'; (split; [exact Hrun|]); (split; [intros []; reflexivity|]);
    (split; [reflexivity|]); cbn; intros Hin;
    repeat (apply elem_of_cons in Hin as [Hin|Hin]; [discriminate|]);
    by apply elem_of_nil in Hin.
Qed.

(** [captureImage] always completes.  When the screen is busy or has no
    camera it does nothing at all.  Otherwise its first effect sets the
    capturing flag and its last one resets it, both flags are reset when
    it is done, and the user gets exactly one alert or navigation: the
    alert [Capture Failed] exactly when taking the photo failed, never for
    a failure while processing. *)
Theorem captureImage_completes (st : flags) (camera : option (exn + string))
    (g : rng) :
  exists (acts : list action) (g' : rng),
    captureImage st camera type_error g infer = Some (acts, g') /\
    (isCapturing st = true \/ isProcessing st = true \/ camera = None ->
     acts = [] /\ g' = g) /\
    (forall photo : exn + string,
       isCapturing st = false -> isProcessing st = false -> camera = Some photo ->
       head acts = Some (SetIsCapturing true) /\
       last acts = Some (SetIsCapturing false) /\
       replay st acts = {| isProcessing := false; isCapturing := false |} /\
       length (filter (fun a => is_report a = true) acts) = 1%nat /\
       (Screen (Alert "Capture Failed" "Please try again.") ∈ acts
        <-> exists e : exn, photo = inl e)).
Proof.
  unfold captureImage.
  destruct (isCapturing st) eqn:Hc; [|destruct (isProcessing st) eqn:Hp].
  - exists [], g. cbn. repeat split; try discriminate; congruence.
  - exists [], g. cbn. repeat split; try discriminate; congruence.
  - destruct camera as [[e|path]|]; cbn [orb].
    + eexists _, g. split; [reflexivity|]. split.
      * intros [?|[?|?]]; discriminate.
      * intros photo _ _ [= <-]. destruct st as [p c]; cbn in *; subst.
        do 4 (split; [reflexivity|]).
        split; [intros _; by exists e|].
        intros _. apply elem_of_cons. right. apply elem_of_cons. by left.
    + destruct (processImage_as_actions g (infer path))
        as (evs & g' & -> & Hflags & Hone & Hnot).
      eexists _, g'. split; [reflexivity|]. split.
      * intros [?|[?|?]]; discriminate.
      * intros photo _ _ [= <-].
        split; [reflexivity|]. split; [by rewrite !app_assoc, last_snoc|].
        split.
        { unfold replay. rewrite !foldl_app. cbn [foldl apply_action].
          fold (replay {| isProcessing := true; isCapturing := true |} (Screen <$> evs)).
          cbn. by rewrite Hflags. }
        split.
        { rewrite !filter_app, !length_app, Hone. reflexivity. }
        split; [|intros [e [=]]].
        intros Hin. exfalso.
        apply elem_of_app in Hin as [Hin|Hin].
        { repeat (apply elem_of_cons in Hin as [Hin|Hin]; [discriminate|]).
          by apply elem_of_nil in Hin. }
        apply elem_of_app in Hin as [Hin|Hin]; [by apply Hnot|].
        apply elem_of_cons in Hin as [Hin|Hin]; [discriminate|].
        by apply elem_of_nil in Hin.
    + exists [], g. repeat split; try discriminate; congruence.
Qed.

(** [selectImage] always completes.  When the screen is busy, or when the
    picker returns without a usable first asset, it does nothing at all.
    When the picker fails the user gets the alert [Gallery Error] and the
    flags are left alone.  When an image is chosen it is stored, processed,
    the processing flag is reset at the end and the user gets exactly one
    alert or navigation. *)
Theorem selectImage_completes (st : flags) (picked : exn + option (list asset))
    (g : rng) :
  exists (acts : list action) (g' : rng),
    selectImage st picked type_error g infer = Some (acts, g') /\
    (isProcessing st = true \/ isCapturing st = true -> acts = [] /\ g' = g) /\
    (isProcessing st = false -> isCapturing st = false ->
     replay st acts = st /\
     match picked with
     | inl _ => acts = [Screen (Alert "Gallery Error" "Failed to select image")]
     | inr assets =>
         match first_uri assets with
         | None => acts = [] /\ g' = g
         | Some u =>
             head acts = Some (SetCapturedImage u) /\
             length (filter (fun a => is_report a = true) acts) = 1%nat
         end
     end).
Proof.
  unfold selectImage.
  destruct (isProcessing st) eqn:Hp; [|destruct (isCapturing st) eqn:Hc].
  - exists [], g. cbn. repeat split; try discriminate; congruence.
  - exists [], g. cbn. repeat split; try discriminate; congruence.
  - cbn [orb]. destruct picked as [e|assets].
    + eexists _, g. split; [reflexivity|]. split; [intros [?|?]; discriminate|].
      intros _ _. split; reflexivity.
    + destruct (first_uri assets) as [u|].
      * destruct (processImage_as_actions g (infer u))
          as (evs & g' & -> & Hflags & Hone & _).
        eexists _, g'. split; [reflexivity|]. split; [intros [?|?]; discriminate|].
        intros _ _. split; [|split; [reflexivity|]].
        { unfold replay. rewrite foldl_app. cbn [foldl apply_action].
          fold (replay {| isProcessing := true; isCapturing := isCapturing st |}
                  (Screen <$> evs)).
          rewrite Hflags. destruct st; cbn in *; congruence. }
        { rewrite filter_app, length_app, Hone. reflexivity. }
      * exists [], g. split; [reflexivity|]. split; [intros [?|?]; discriminate|].
        intros _ _. repeat split; reflexivity.
Qed.

End Actions.

(* ================================================================== *)
(** ** More on the resizer                                             *)
(* ================================================================== *)

Section ResizerScaling.

Local Open Scope nat_scope.


(** In an image enlarged by a whole factor [k], the sample chosen for
    pixel (x, y) is the sample of pixel (x / k, y / k) of the source, where
    the products are exact. *)
Lemma nearest_sample_upscale (img : image) (k x y c : nat) :
  0 < k -> x < k * width img -> y < k * height img -> c < 4 ->
  exact_sizes (width img) (k * width img) ->
  exact_sizes (height img) (k * height img) ->
  nearest_sample img (k * width img) (k * height img)
      ((y * (k * width img) + x) * 4 + c)
    = ToUint8 (data img !! ((y / k * width img + x / k) * 4 + c)).
Proof.
  intros Hk Hx Hy Hc HeW HeH.
  assert (HW : width img <> 0) by (intros E; rewrite E in Hx; lia).
  assert (HH : height img <> 0) by (intros E; rewrite E in Hy; lia).
  rewrite nearest_sample_exact by (assumption || lia).
  by rewrite !Nat.Div0.div_mul_cancel_r by assumption.
Qed.

(** Enlarging a well-formed image by a whole factor [k] in both directions
    copies each source pixel into a block of [k] by [k] pixels: pixel
    (x, y) of the result is pixel (x / k, y / k) of the source.  The
    enlarged buffer is a typed array, and the sizes are those at which the
    products of the coordinates are exact: [k] times the square of the
    width, and of the height, below 2^53. *)
Theorem resizeNearestNeighbor_upscale (img : image) (k x y c : nat) :
  well_formed img -> 0 < k ->
  array_length (k * width img * (k * height img) * 4) ->
  exact_sizes (width img) (k * width img) ->
  exact_sizes (height img) (k * height img) ->
  x < k * width img -> y < k * height img -> c < 4 ->
  exists b : Byte.byte,
    data img !! ((y / k * width img + x / k) * 4 + c) = Some b /\
    data (resizeNearestNeighbor img (k * width img) (k * height img))
      !! ((y * (k * width img) + x) * 4 + c) = Some b.
Proof.
  intros Hwf Hk _ HeW HeH Hx Hy Hc. unfold well_formed in Hwf.
  assert (Hxk : x / k < width img) by (apply Nat.Div0.div_lt_upper_bound; lia).
  assert (Hyk : y / k < height img) by (apply Nat.Div0.div_lt_upper_bound; lia).
  destruct (lookup_lt_is_Some_2 (data img) ((y / k * width img + x / k) * 4 + c)
              ltac:(nia)) as [b Hb].
  exists b. split; [exact Hb|].
  rewrite resizeNearestNeighbor_lookup by nia.
  rewrite nearest_sample_upscale by assumption.
  by rewrite Hb.
Qed.

(** An instance: the 2 by 1 image enlarged three times, pixel (4, 2). *)
Lemma resizeNearestNeighbor_upscale_witness :
  exists b : Byte.byte,
    data Examples.img_2x1 !! ((2 / 3 * width Examples.img_2x1 + 4 / 3) * 4 + 1) = Some b /\
    data (resizeNearestNeighbor Examples.img_2x1 (3 * width Examples.img_2x1)
            (3 * height Examples.img_2x1))
      !! ((2 * (3 * width Examples.img_2x1) + 4) * 4 + 1) = Some b.
Proof.
  apply (resizeNearestNeighbor_upscale Examples.img_2x1 3 4 2 1);
    [reflexivity|lia|vm_compute; reflexivity|vm_compute; reflexivity
    |vm_compute; reflexivity|simpl; lia|simpl; lia|lia].
Defined.

(** Enlarging a well-formed image by a whole factor and reducing the
    result to the original size gives back the image, when the enlarged
    buffer is a typed array and at the sizes at which the products of the
    coordinates are exact. *)
Theorem resizeNearestNeighbor_round_trip (img : image) (k : nat) :
  well_formed img -> 0 < k ->
  array_length (k * width img * (k * height img) * 4) ->
  exact_sizes (width img) (k * width img) ->
  exact_sizes (height img) (k * height img) ->
  resizeNearestNeighbor
    (resizeNearestNeighbor img (k * width img) (k * height img))
    (width img) (height img) = img.
Proof.
  intros Hwf Hk _ HeW HeH.
  set (big := resizeNearestNeighbor img (k * width img) (k * height img)).
  assert (Hdata : data (resizeNearestNeighbor big (width img) (height img)) = data img).
  { apply list_eq. intros i.
    destruct (decide (i < width img * height img * 4)) as [Hi|Hi].
    - rewrite resizeNearestNeighbor_lookup by exact Hi.
      assert (width img <> 0 /\ height img <> 0) as [HW HH]
        by (split; intros E; rewrite E in Hi; lia).
      destruct (sample_position _ _ i Hi) as (Hpos & Hx & Hy & Hc).
      unfold well_formed in Hwf.
      destruct (lookup_lt_is_Some_2 (data img) i ltac:(lia)) as [b Hb].
      rewrite Hb. rewrite Hpos in Hb |- * at 1.
      set (x := (i / 4) mod width img) in *. set (y := i / 4 / width img) in *.
      set (c := i mod 4) in *.
      assert (HeW' : exact_sizes (width big) (width img))
        by (unfold exact_sizes in *; cbn [big width resizeNearestNeighbor]; lia).
      assert (HeH' : exact_sizes (height big) (height img))
        by (unfold exact_sizes in *; cbn [big height resizeNearestNeighbor]; lia).
      rewrite nearest_sample_exact
        by (first [assumption|cbn [big width height resizeNearestNeighbor]; lia]).
      change (width big) with (k * width img). change (height big) with (k * height img).
      replace (x * (k * width img)) with (x * k * width img) by lia.
      replace (y * (k * height img)) with (y * k * height img) by lia.
      rewrite !Nat.div_mul by assumption.
      assert (HX : x * k < k * width img) by nia.
      assert (HY : y * k < k * height img) by nia.
      assert (Hin : (y * k * (k * width img) + x * k) * 4 + c
                    < k * width img * (k * height img) * 4).
      { assert ((y * k + 1) * (k * width img) <= k * height img * (k * width img))
          by (apply Nat.mul_le_mono_r; lia).
        lia. }
      unfold big. rewrite resizeNearestNeighbor_lookup by exact Hin.
      rewrite nearest_sample_upscale by assumption.
      cbn [ToUint8]. rewrite !Nat.div_mul by lia.
      by rewrite Hb.
    - unfold well_formed in Hwf.
      rewrite !(proj2 (lookup_ge_None _ _)); [reflexivity|lia|].
      rewrite length_resizeNearestNeighbor. lia. }
  destruct img as [w h d]. unfold resizeNearestNeighbor in Hdata |- *.
  cbn [data width height] in *. fold big in Hdata. by rewrite Hdata.
Qed.

(** An instance: the 2 by 1 image, enlarged three times and reduced. *)
Lemma resizeNearestNeighbor_round_trip_witness :
  resizeNearestNeighbor
    (resizeNearestNeighbor Examples.img_2x1 (3 * width Examples.img_2x1)
       (3 * height Examples.img_2x1))
    (width Examples.img_2x1) (height Examples.img_2x1) = Examples.img_2x1.
Proof.
  apply (resizeNearestNeighbor_round_trip Examples.img_2x1 3);
    [reflexivity|lia|vm_compute; reflexivity|vm_compute; reflexivity
    |vm_compute; reflexivity].
Defined.

End ResizerScaling.

(* ================================================================== *)
(** ** More on the converter                                           *)
(* ================================================================== *)

Section ConverterChannels.

Local Open Scope nat_scope.

(** The alpha channel never reaches the tensor: two images of the same
    size whose buffers agree on every red, green and blue sample give the
    same tensor. *)
Theorem tensor_ignores_alpha (a b : image) (targetW targetH : nat) :
  width a = width b -> height a = height b ->
  (forall k : nat, k mod 4 <> 3 -> data a !! k = data b !! k) ->
  tensor_of_image a targetW targetH = tensor_of_image b targetW targetH.
Proof.
  intros HW HH Hrgb. apply list_eq. intros k.
  destruct (decide (k < targetW * targetH * 3)) as [Hk|Hk].
  - rewrite !tensor_of_image_lookup by exact Hk.
    do 3 f_equal. unfold nearest_sample, source_index. rewrite HW, HH.
    destruct (array_index _) as [sy|]; [|reflexivity].
    destruct (array_index _) as [sx|]; [|reflexivity].
    cbn [read_sample]. f_equal. apply Hrgb.
    assert (Hc : k mod 3 < 3) by (apply Nat.mod_upper_bound; lia).
    rewrite <- (Nat.mod_unique (k / 3 * 4 + k mod 3) 4 (k / 3) (k mod 3)) by lia.
    set (p := _ * width b + _).
    rewrite <- (Nat.mod_unique (p * 4 + k mod 3) 4 p (k mod 3)) by lia.
    lia.
  - rewrite !(proj2 (lookup_ge_None _ _)); [reflexivity| |];
      rewrite length_tensor_of_image; lia.
Qed.

(** An instance: one pixel, opaque and transparent. *)
Lemma tensor_ignores_alpha_witness :
  tensor_of_image Samples.img_1x1 2 2 = tensor_of_image Samples.img_1x1' 2 2.
Proof.
  apply (tensor_ignores_alpha Samples.img_1x1 Samples.img_1x1' 2 2);
    [reflexivity|reflexivity|].
  intros k Hk.
  do 3 (destruct k as [|k]; [reflexivity|]).
  destruct k as [|k]; [simpl in Hk; lia|reflexivity].
Defined.

(** Every byte is in the list of all bytes. *)
Lemma all_bytes_complete (b : Byte.byte) : In b all_bytes.
Proof.
  assert (H : existsb (Byte.eqb b) all_bytes = true)
    by (destruct b; vm_compute; reflexivity).
  apply existsb_exists in H as (b' & Hin & Heq).
  apply Byte.byte_dec_bl in Heq. by subst b'.
Qed.

(** The table, computed once. *)
Lemma normalize_table_in_order :
  exists table : list (N * number),
    normalize_table = table /\
    forallb (fun p => forallb (in_order p) table) table = true.
Proof.
  eexists. split; [vm_compute; reflexivity|]. vm_compute. reflexivity.
Qed.

(** Normalisation keeps the order of the samples, rounding to binary32
    included: 0 becomes 0, 255 becomes exactly 1 and a larger byte always
    gives a strictly larger tensor element, so no two sample values
    collapse. *)
Theorem normalize_strictly_increasing :
  normalize (Some Byte.x00) = zero /\
  normalize (Some Byte.xff) = one /\
  forall b1 b2 : Byte.byte,
    (Byte.to_N b1 < Byte.to_N b2)%N ->
    lt (normalize (Some b1)) (normalize (Some b2)) = true.
Proof.
  split; [vm_compute; reflexivity|]. split; [vm_compute; reflexivity|].
  intros b1 b2 Hlt.
  destruct normalize_table_in_order as (table & Htable & Hall).
  assert (Hin : forall b, In (Byte.to_N b, normalize (Some b)) table).
  { intros b. rewrite <- Htable. unfold normalize_table.
    apply (in_map (fun b => (Byte.to_N b, normalize (Some b)))).
    apply all_bytes_complete. }
  pose proof (proj1 (forallb_forall _ _) Hall _ (Hin b1)) as Hrow.
  pose proof (proj1 (forallb_forall _ _) Hrow _ (Hin b2)) as Hcell.
  unfold in_order in Hcell. cbn [fst snd] in Hcell.
  apply N.ltb_lt in Hlt. rewrite Hlt in Hcell. exact Hcell.
Qed.

End ConverterChannels.

(* ================================================================== *)
(** ** More on the data-URI prefix                                     *)
(* ================================================================== *)

Section DataUriOnly.

Local Open Scope string_scope.

(** A string is its longest run of word characters followed by what
    [skip_word] leaves. *)
Lemma skip_word_split (s : string) :
  exists w : string, all_chars is_word_char w = true /\ s = w ++ skip_word s.
Proof.
  induction s as [|c s (w & Hw & Hs)]; [by exists ""|].
  cbn [skip_word]. destruct (is_word_char c) eqn:Hc.
  - exists (String c w). cbn. rewrite Hc, Hw. split; [reflexivity|]. by rewrite <- Hs.
  - by exists "".
Qed.

(** The converter removes a header [data:image/<word>;base64,] from the
    front of its input, or nothing: whatever the input, the text that is
    decoded is the input itself or the input without such a header, and
    nothing after the header is ever changed. *)
Theorem strip_data_uri_removes_header_only (base64 : string) :
  strip_data_uri base64 = base64 \/
  exists word : string,
    word <> "" /\ all_chars is_word_char word = true /\
    base64 = data_uri_header word ++ strip_data_uri base64.
Proof.
  unfold strip_data_uri.
  destruct (strip_literal "data:image/" base64) as [[|c rest]|] eqn:E;
    [by left| |by left].
  destruct (is_word_char c) eqn:Hc; [|by left].
  destruct (strip_literal ";base64," (skip_word rest)) as [b64|] eqn:E2; [|by left].
  right. apply strip_literal_Some in E, E2.
  destruct (skip_word_split rest) as (w & Hw & Hrest).
  exists (String c w). split; [discriminate|]. split; [cbn; by rewrite Hc, Hw|].
  rewrite E2 in Hrest. subst base64 rest. unfold data_uri_header.
  cbn. by rewrite !append_assoc.
Qed.

End DataUriOnly.
